(** * NuN Central Dashboard: the chat front-end of [src/index.tsx]

    A shallow embedding of the mock API fixtures, the function-call
    dispatch loop, the confirmation modal and the start-up routine, with
    the properties the specification states about them. *)

From Stdlib Require Import ZArith List String Ascii Bool Lia DecimalString.
Import ListNotations.

Local Open Scope string_scope.
Local Open Scope list_scope.

(** ** JavaScript values and conversions *)

(** The primitive values.  The parameters the fixtures declare are strings
    and numbers; [undefined] is what a missing positional argument is
    bound to.  What an argument record can carry beyond primitives is
    [value], below. *)
Inductive jsval : Type :=
| JUndefined
| JNull
| JBoolean (b : bool)
| JNumber (z : Z)
| JString (s : string).

(** [a === b] on primitives. *)
Definition strict_equals (a b : jsval) : bool :=
  match a, b with
  | JUndefined, JUndefined => true
  | JNull, JNull => true
  | JBoolean x, JBoolean y => Bool.eqb x y
  | JNumber x, JNumber y => Z.eqb x y
  | JString x, JString y => String.eqb x y
  | _, _ => false
  end.

(** A relative index after ToIntegerOrInfinity. *)
Inductive integerOrInfinity : Type :=
| NegInfinity
| Finite (z : Z)
| PosInfinity.

Definition nl : string := String (ascii_of_nat 10) EmptyString.
Definition dquote : string := String (ascii_of_nat 34) EmptyString.

(** Number::toString on an integer: the decimal digits, with a leading
    minus sign.  (The engine switches to exponent form from 10^21 on;
    every integer a JSON argument carries exactly is far below that.) *)
Definition NumberToString (z : Z) : string :=
  NilZero.string_of_int (Z.to_int z).

(** ToString, as a template literal applies it to a substitution. *)
Definition ToString (v : jsval) : string :=
  match v with
  | JUndefined => "undefined"
  | JNull => "null"
  | JBoolean true => "true"
  | JBoolean false => "false"
  | JNumber z => NumberToString z
  | JString s => s
  end.

(** What the program takes from the engine and the page without defining
    it: [String.prototype.trim], the parse of a string into a relative
    index (ToIntegerOrInfinity after StringToNumber),
    [JSON.stringify(JSON.parse(s), null, 2)] ([None] when the parse
    throws), and the wording of the engine's own TypeErrors and
    RangeError. *)
Record Runtime : Type := {
  trim : string -> string;
  StringToIntegerOrInfinity : string -> integerOrInfinity;
  JSON_reformat : string -> option string;
  not_a_function : string -> string;
  expecting_function : string -> string;
  cannot_convert_to_primitive : string;
  cannot_convert_to_object : string;
  invalid_time_value : string
}.

(** ToIntegerOrInfinity(ToNumber(v)); NaN (from [undefined]) becomes 0. *)
Definition ToIntegerOrInfinity (rt : Runtime) (v : jsval) : integerOrInfinity :=
  match v with
  | JUndefined => Finite 0
  | JNull => Finite 0
  | JBoolean true => Finite 1
  | JBoolean false => Finite 0
  | JNumber z => Finite z
  | JString s => StringToIntegerOrInfinity rt s
  end.

(** [arr.slice(0, end)]: an [undefined] end means the length; a negative
    end counts from the back; the result index is clamped to the array. *)
Definition slice0 {A : Type} (rt : Runtime) (arr : list A) (end_ : jsval) : list A :=
  let len := Z.of_nat (List.length arr) in
  let final :=
    match end_ with
    | JUndefined => len
    | _ =>
        match ToIntegerOrInfinity rt end_ with
        | NegInfinity => 0%Z
        | Finite relativeEnd =>
            if (relativeEnd <? 0)%Z then Z.max (len + relativeEnd) 0
            else Z.min relativeEnd len
        | PosInfinity => len
        end
    end in
  firstn (Z.to_nat final) arr.

(** [parts.join(sep)] on strings. *)
Fixpoint join (sep : string) (parts : list string) : string :=
  match parts with
  | [] => ""
  | [p] => p
  | p :: rest => p ++ sep ++ join sep rest
  end.

(** [s.startsWith(c)] for a one-character [c]. *)
Definition startsWith (s : string) (c : ascii) : bool :=
  match s with
  | String a _ => Ascii.eqb a c
  | EmptyString => false
  end.

(** ** The values of an argument record

    The argument record of a function call is JSON: besides primitives it
    can hold arrays and objects, and the untyped call passes them on as
    they are. *)
#[local] Unset Elimination Schemes.
Inductive value : Type :=
| Prim (v : jsval)
| Arr (items : list value)
| Obj (members : list (string * value)).
#[local] Set Elimination Schemes.

Coercion Prim : jsval >-> value.

(** ToString of a value, [None] when the conversion throws a TypeError.
    An array converts by [join]: its elements converted in turn, [null]
    and [undefined] as the empty text, with commas between.  An object
    converts by [Object.prototype.toString], unless a member named
    [toString] hides it: a JSON member is no function, [valueOf] gives
    back the object, and no primitive is found. *)
Fixpoint value_ToString (v : value) : option string :=
  match v with
  | Prim p => Some (ToString p)
  | Arr items =>
      let fix elements (l : list value) : option (list string) :=
        match l with
        | [] => Some []
        | x :: rest =>
            match
              match x with
              | Prim JUndefined => Some EmptyString
              | Prim JNull => Some EmptyString
              | _ => value_ToString x
              end, elements rest
            with
            | Some s, Some ss => Some (s :: ss)
            | _, _ => None
            end
        end in
      match elements items with
      | Some parts => Some (join "," parts)
      | None => None
      end
  | Obj members =>
      if existsb (fun kv => String.eqb (fst kv) "toString") members then None
      else Some "[object Object]"
  end.

(** The value has a string conversion. *)
Definition convertible (v : value) : bool :=
  match value_ToString v with
  | Some _ => true
  | None => false
  end.

(** ** The page and the module state *)

Inductive cssClass : Type := user_message | model_message.

(** A child of the chat history element. *)
Inductive node : Type :=
| MessageDiv (cls : cssClass) (innerHTML : string)
| LoadingSpinner.

(** The record stored in [actionToConfirm]. *)
Record action : Type := {
  type : string;
  packageId : value;
  nodeId : value
}.

(** An [Error] object, as far as the program reads it. *)
Record error : Type := { message : string }.

(** The DOM elements the module holds references to, the module variable
    [actionToConfirm], the spinner reference, and what reached
    [console.error].  [Date_now] is the clock [Date.now()] reads. *)
Record world : Type := {
  actionToConfirm : option action;
  modalBody : string;
  modal_hidden : bool;
  modalOverlay_hidden : bool;
  chatHistory : list node;
  loadingIndicator_element : bool;
  promptInput_value : string;
  promptInput_disabled : bool;
  promptInput_focused : bool;
  submitButton_disabled : bool;
  console : list error;
  Date_now : Z
}.

Definition set_actionToConfirm (a : option action) (w : world) : world :=
  {| actionToConfirm := a; modalBody := modalBody w;
     modal_hidden := modal_hidden w; modalOverlay_hidden := modalOverlay_hidden w;
     chatHistory := chatHistory w;
     loadingIndicator_element := loadingIndicator_element w;
     promptInput_value := promptInput_value w;
     promptInput_disabled := promptInput_disabled w;
     promptInput_focused := promptInput_focused w;
     submitButton_disabled := submitButton_disabled w;
     console := console w; Date_now := Date_now w |}.

Definition set_modal (body : string) (hidden : bool) (w : world) : world :=
  {| actionToConfirm := actionToConfirm w; modalBody := body;
     modal_hidden := hidden; modalOverlay_hidden := hidden;
     chatHistory := chatHistory w;
     loadingIndicator_element := loadingIndicator_element w;
     promptInput_value := promptInput_value w;
     promptInput_disabled := promptInput_disabled w;
     promptInput_focused := promptInput_focused w;
     submitButton_disabled := submitButton_disabled w;
     console := console w; Date_now := Date_now w |}.

Definition set_chat (children : list node) (spinner : bool) (w : world) : world :=
  {| actionToConfirm := actionToConfirm w; modalBody := modalBody w;
     modal_hidden := modal_hidden w; modalOverlay_hidden := modalOverlay_hidden w;
     chatHistory := children;
     loadingIndicator_element := spinner;
     promptInput_value := promptInput_value w;
     promptInput_disabled := promptInput_disabled w;
     promptInput_focused := promptInput_focused w;
     submitButton_disabled := submitButton_disabled w;
     console := console w; Date_now := Date_now w |}.

Definition set_form (value : string) (disabled focused : bool) (w : world) : world :=
  {| actionToConfirm := actionToConfirm w; modalBody := modalBody w;
     modal_hidden := modal_hidden w; modalOverlay_hidden := modalOverlay_hidden w;
     chatHistory := chatHistory w;
     loadingIndicator_element := loadingIndicator_element w;
     promptInput_value := value;
     promptInput_disabled := disabled;
     promptInput_focused := focused;
     submitButton_disabled := disabled;
     console := console w; Date_now := Date_now w |}.

Definition console_error (e : error) (w : world) : world :=
  {| actionToConfirm := actionToConfirm w; modalBody := modalBody w;
     modal_hidden := modal_hidden w; modalOverlay_hidden := modalOverlay_hidden w;
     chatHistory := chatHistory w;
     loadingIndicator_element := loadingIndicator_element w;
     promptInput_value := promptInput_value w;
     promptInput_disabled := promptInput_disabled w;
     promptInput_focused := promptInput_focused w;
     submitButton_disabled := submitButton_disabled w;
     console := console w ++ [e]; Date_now := Date_now w |}.

(** ** Mock API implementations *)

Record nodeStatus : Type := {
  id : jsval;
  status : string;
  version : string;
  cpu_load : Z
}.

Definition getNodeStatus (nodeId : jsval) : string :=
  if strict_equals nodeId (JString "ana-agi-node-1") then
    let response :=
      {| id := nodeId; status := "Active"; version := "2.0.0 G-Sync";
         cpu_load := 12 |} in
    "Status for node " ++ ToString (id response) ++ ":" ++ nl
      ++ "- Status: " ++ status response ++ nl
      ++ "- Version: " ++ version response ++ nl
      ++ "- CPU Load: " ++ NumberToString (cpu_load response) ++ "%"
  else
    "Error fetching status for " ++ ToString nodeId ++ ": Node not found.".

(** A log entry.  The timestamp is kept as the millisecond value handed to
    [new Date]; its ISO rendering is never read. *)
Record logEntry : Type := {
  timestamp : Z;
  level : string;
  log_message : string
}.

Definition logs (now : Z) : list logEntry :=
  [ {| timestamp := now - 10000; level := "INFO";
       log_message := "System compliance check passed." |};
    {| timestamp := now - 30000; level := "ERROR";
       log_message := "Connection to database failed." |};
    {| timestamp := now - 60000; level := "INFO";
       log_message := "Deployment of package 1.9.9 started on ana-agi-node-1." |};
    {| timestamp := now - 120000; level := "WARN";
       log_message := "High CPU usage detected on node-2." |};
    {| timestamp := now - 300000; level := "INFO";
       log_message := "User " ++ dquote ++ "admin" ++ dquote ++ " logged in." |} ].

Definition formatLog (log : logEntry) : string :=
  "- [" ++ level log ++ "] " ++ log_message log.

Definition getLatestVaultLogs (rt : Runtime) (now : Z) (limit : jsval) : string :=
  let response := slice0 rt (logs now) limit in
  let formattedLogs := join nl (map formatLog response) in
  "Last " ++ ToString limit ++ " logs from the Vault:" ++ nl ++ formattedLogs.

(** The score is the literal 98.5; it is kept as the text the template
    literal renders it to. *)
Definition getSystemComplianceScore : string :=
  let response_score := "98.5" in
  "Current system compliance score is: " ++ response_score ++ "%".

(** How an evaluation ends: with a value, or by throwing. *)
Inductive completion (A : Type) : Type :=
| Normal (a : A) (w : world)
| Throw (e : error) (w : world).
Arguments Normal {A} a w.
Arguments Throw {A} e w.

(** The action is staged first; the template literal then converts the
    two arguments and throws if one of them has no string conversion;
    the modal is filled and shown only after that. *)
Definition startDeployment (rt : Runtime) (packageId nodeId : value) (w : world)
    : completion string :=
  let w1 :=
    set_actionToConfirm
      (Some {| type := "DEPLOYMENT"; packageId := packageId; nodeId := nodeId |}) w in
  match value_ToString packageId, value_ToString nodeId with
  | Some package, Some node =>
      let w2 :=
        set_modal
          ("<p>Are you sure you want to deploy package <strong>" ++ package
             ++ "</strong> to node <strong>" ++ node
             ++ "</strong>?</p><p>This action will change the state of the system.</p>")
          false w1 in
      Normal "Please confirm the deployment in the dialog box." w2
  | _, _ => Throw {| message := cannot_convert_to_primitive rt |} w1
  end.

(** ** The fixtures under an untyped call

    [(mockApi as any)[name](...)] passes whatever the argument record
    holds.  On a primitive a fixture is the function above.  An array or an
    object is never [===] a string and reaches the template literals and
    [slice] through its string conversion, which can throw. *)

(** A time value [new Date] accepts: [toISOString] throws a RangeError on
    any other. *)
Definition time_valid (t : Z) : bool :=
  (Z.abs t <=? 8640000000000000)%Z.

Definition clock_valid (w : world) : bool :=
  forallb time_valid (map timestamp (logs (Date_now w))).

Definition getNodeStatus_untyped (rt : Runtime) (nodeId : value) (w : world)
    : completion string :=
  match nodeId with
  | Prim p => Normal (getNodeStatus p) w
  | _ =>
      match value_ToString nodeId with
      | Some s =>
          Normal ("Error fetching status for " ++ s ++ ": Node not found.")%string w
      | None => Throw {| message := cannot_convert_to_primitive rt |} w
      end
  end.

(** The array of logs is built first, each timestamp through
    [toISOString]; [slice] then converts the limit to a number, an array
    or object through its string conversion, which the header shows. *)
Definition getLatestVaultLogs_untyped (rt : Runtime) (limit : value) (w : world)
    : completion string :=
  if clock_valid w then
    match limit with
    | Prim p => Normal (getLatestVaultLogs rt (Date_now w) p) w
    | _ =>
        match value_ToString limit with
        | Some s => Normal (getLatestVaultLogs rt (Date_now w) (JString s)) w
        | None => Throw {| message := cannot_convert_to_primitive rt |} w
        end
    end
  else Throw {| message := invalid_time_value rt |} w.

(** The i-th positional argument of a call; a missing one is [undefined]. *)
Definition argument (i : nat) (vals : list value) : value :=
  nth i vals (Prim JUndefined).

(** A member of the [mockApi] object literal, called with the spread
    argument values. *)
Definition fixture : Type := list value -> world -> completion string.

Definition mockApi (rt : Runtime) : list (string * fixture) :=
  [ ("getNodeStatus",
     fun vals w => getNodeStatus_untyped rt (argument 0 vals) w);
    ("getLatestVaultLogs",
     fun vals w => getLatestVaultLogs_untyped rt (argument 0 vals) w);
    ("getSystemComplianceScore",
     fun _ w => Normal getSystemComplianceScore w);
    ("startDeployment",
     fun vals w => startDeployment rt (argument 0 vals) (argument 1 vals) w) ].

(** The own property [name] of [mockApi]. *)
Definition getOwnProperty (rt : Runtime) (name : string) : option fixture :=
  match find (fun kv => String.eqb (fst kv) name) (mockApi rt) with
  | Some kv => Some (snd kv)
  | None => None
  end.

(** ** Gemini function declarations *)

Inductive parameterType : Type := STRING | INTEGER.

Record functionDeclaration : Type := {
  decl_name : string;
  properties : list (string * parameterType);
  required : list string
}.

Definition nunDashboardTools : list functionDeclaration :=
  [ {| decl_name := "getNodeStatus";
       properties := [("nodeId", STRING)]; required := ["nodeId"] |};
    {| decl_name := "getLatestVaultLogs";
       properties := [("limit", INTEGER)]; required := ["limit"] |};
    {| decl_name := "getSystemComplianceScore";
       properties := []; required := [] |};
    {| decl_name := "startDeployment";
       properties := [("packageId", STRING); ("nodeId", STRING)];
       required := ["packageId"; "nodeId"] |} ].

(** ** What [mockApi] inherits

    [mockApi] is an object literal, so its prototype is [Object.prototype]:
    the [in] operator and a keyed read both see the inherited members. *)

Definition ObjectPrototype_keys : list string :=
  [ "constructor"; "__defineGetter__"; "__defineSetter__"; "hasOwnProperty";
    "__lookupGetter__"; "__lookupSetter__"; "isPrototypeOf";
    "propertyIsEnumerable"; "toString"; "valueOf"; "__proto__";
    "toLocaleString" ].

(** Objects a call through [mockApi] can hand back. *)
Inductive hostObject : Type :=
| TheMockApi
| ObjectFrom (v : value)
| ProtoGetter
| ProtoSetter.

(** The result of a call: a primitive or a reference to an object. *)
Inductive jsresult : Type :=
| Primitive (v : jsval)
| ObjectRef (o : hostObject).

(** [name in mockApi]. *)
Definition has_property (rt : Runtime) (name : string) : bool :=
  match getOwnProperty rt name with
  | Some _ => true
  | None => existsb (String.eqb name) ObjectPrototype_keys
  end.

Definition is_own (rt : Runtime) (key : string) : bool :=
  match getOwnProperty rt key with Some _ => true | None => false end.

(** A member that takes a property key converts its argument first. *)
Definition with_key (rt : Runtime) (v : value) (w : world)
    (k : string -> jsresult) : completion jsresult :=
  match value_ToString v with
  | Some key => Normal (k key) w
  | None => Throw {| message := cannot_convert_to_primitive rt |} w
  end.

(** [Object.prototype[name].call(mockApi, ...vals)] on JSON arguments; a
    name that is not a member, and [__proto__], whose value is an object,
    give the TypeError of calling a non-function. *)
Definition ObjectPrototype_call (rt : Runtime) (name : string)
    (vals : list value) (w : world) : completion jsresult :=
  if String.eqb name "toString" then
    Normal (Primitive (JString "[object Object]")) w
  else if String.eqb name "toLocaleString" then
    Normal (Primitive (JString "[object Object]")) w
  else if String.eqb name "valueOf" then
    Normal (ObjectRef TheMockApi) w
  else if String.eqb name "constructor" then
    Normal (ObjectRef (ObjectFrom (argument 0 vals))) w
  else if String.eqb name "hasOwnProperty" then
    with_key rt (argument 0 vals) w
      (fun key => Primitive (JBoolean (is_own rt key)))
  else if String.eqb name "propertyIsEnumerable" then
    with_key rt (argument 0 vals) w
      (fun key => Primitive (JBoolean (is_own rt key)))
  else if String.eqb name "isPrototypeOf" then
    Normal (Primitive (JBoolean false)) w
  else if String.eqb name "__lookupGetter__" then
    with_key rt (argument 0 vals) w
      (fun key =>
         if String.eqb key "__proto__" then ObjectRef ProtoGetter
         else Primitive JUndefined)
  else if String.eqb name "__lookupSetter__" then
    with_key rt (argument 0 vals) w
      (fun key =>
         if String.eqb key "__proto__" then ObjectRef ProtoSetter
         else Primitive JUndefined)
  else if String.eqb name "__defineGetter__" then
    Throw {| message := expecting_function rt name |} w
  else if String.eqb name "__defineSetter__" then
    Throw {| message := expecting_function rt name |} w
  else
    Throw {| message := not_a_function rt name |} w.

(** [(mockApi as any)[name](...vals)]. *)
Definition call_property (rt : Runtime) (name : string)
    (vals : list value) (w : world) : completion jsresult :=
  match getOwnProperty rt name with
  | Some f =>
      match f vals w with
      | Normal result w' => Normal (Primitive (JString result)) w'
      | Throw e w' => Throw e w'
      end
  | None => ObjectPrototype_call rt name vals w
  end.

(** ** Rendering *)

Definition preformatted (content : string) : string :=
  "<pre style=" ++ dquote
    ++ "white-space: pre-wrap; font-family: inherit; background: none; padding: 0;"
    ++ dquote ++ ">" ++ content ++ "</pre>".

(** The markup [appendMessage] gives the new message element. *)
Definition messageHTML (rt : Runtime) (content : string) (cls : cssClass) : string :=
  match cls with
  | model_message =>
      if startsWith content "{"%char || startsWith content "["%char then
        match JSON_reformat rt content with
        | Some formattedJson => "<pre><code>" ++ formattedJson ++ "</code></pre>"
        | None => preformatted content
        end
      else preformatted content
  | user_message => preformatted content
  end.

Definition appendMessage (rt : Runtime) (content : string) (cls : cssClass)
    (w : world) : world :=
  set_chat (chatHistory w ++ [MessageDiv cls (messageHTML rt content cls)])
    (loadingIndicator_element w) w.

(** [loadingIndicator.show] and [.hide].  The spinner is a child of the
    chat history; [element.remove()] takes it out again.  (The scroll
    position the program also sets is not part of the model.) *)
Definition is_spinner (n : node) : bool :=
  match n with LoadingSpinner => true | MessageDiv _ _ => false end.

Definition loadingIndicator_show (w : world) : world :=
  if loadingIndicator_element w then w
  else set_chat (chatHistory w ++ [LoadingSpinner]) true w.

Definition loadingIndicator_hide (w : world) : world :=
  if loadingIndicator_element w
  then set_chat (filter (fun n => negb (is_spinner n)) (chatHistory w)) false w
  else w.

(** ** The chat session *)

(** A function call the model requests: a name and, when the call carries
    one, an argument record in its own property order, the order in which
    [Object.values] lists it.  (A call without a name reads as the
    property key [undefined], which [mockApi] lacks.) *)
Record functionCall : Type := {
  name : string;
  args : option (list (string * value))
}.

Record response : Type := {
  text : option string;
  functionCalls : option (list functionCall)
}.

(** [{ name, response: { result } }]. *)
Record functionResponse : Type := {
  fr_name : string;
  fr_result : jsresult
}.

(** [{ functionResponse }]. *)
Inductive part : Type :=
| FunctionResponsePart (functionResponse : functionResponse).

(** The argument of one [chat.sendMessage]. *)
Inductive sent : Type :=
| SendText (userMessage : string)
| SendParts (parts : list part).

(** How the service settles one [sendMessage]. *)
Inductive reply : Type :=
| Resolve (r : response)
| Reject (e : error).

(** The session as the program observes it: the replies the service will
    give to the coming sends, in order, and the messages sent so far.  A
    send that finds no reply left is a call that never settles. *)
Record chat : Type := {
  incoming : list reply;
  outgoing : list sent
}.

Definition Object_values (args : list (string * value)) : list value :=
  map snd args.

(** The [for ... of response.functionCalls] body, accumulating
    [functionResponses].  [Object.values] throws on a call without an
    argument record. *)
Fixpoint run_calls (rt : Runtime) (calls : list functionCall)
    (functionResponses : list functionResponse) (w : world)
    : completion (list functionResponse) :=
  match calls with
  | [] => Normal functionResponses w
  | funcCall :: rest =>
      if has_property rt (name funcCall) then
        match args funcCall with
        | Some record =>
            match call_property rt (name funcCall) (Object_values record) w with
            | Normal result w1 =>
                run_calls rt rest
                  (functionResponses
                     ++ [{| fr_name := name funcCall; fr_result := result |}]) w1
            | Throw e w1 => Throw e w1
            end
        | None => Throw {| message := cannot_convert_to_object rt |} w
        end
      else run_calls rt rest functionResponses w
  end.

(** Where the [try] block stands when control leaves it. *)
Inductive tryResult : Type :=
| Finished (r : response) (w : world) (c : chat)
| Threw (e : error) (w : world) (c : chat)
| Awaiting (w : world) (c : chat).

(** The [while] loop.  Each turn of it awaits one reply, so it is defined
    by recursion on the replies still to come. *)
Fixpoint dispatch_loop (rt : Runtime) (incoming : list reply) (outgoing : list sent)
    (response : response) (w : world) : tryResult :=
  match functionCalls response with
  | Some ((_ :: _) as calls) =>
      match run_calls rt calls [] w with
      | Throw e w1 => Threw e w1 {| incoming := incoming; outgoing := outgoing |}
      | Normal functionResponses w1 =>
          let message := SendParts (map FunctionResponsePart functionResponses) in
          match incoming with
          | [] => Awaiting w1 {| incoming := []; outgoing := outgoing ++ [message] |}
          | Resolve r :: later => dispatch_loop rt later (outgoing ++ [message]) r w1
          | Reject e :: later =>
              Threw e w1 {| incoming := later; outgoing := outgoing ++ [message] |}
          end
      end
  | _ => Finished response w {| incoming := incoming; outgoing := outgoing |}
  end.

(** The body of [try]: the first send, the loop, the final rendering. *)
Definition try_block (rt : Runtime) (userMessage : string) (c : chat) (w : world)
    : tryResult :=
  let outgoing1 := outgoing c ++ [SendText userMessage] in
  match incoming c with
  | [] => Awaiting w {| incoming := []; outgoing := outgoing1 |}
  | Reject e :: later => Threw e w {| incoming := later; outgoing := outgoing1 |}
  | Resolve r :: later =>
      match dispatch_loop rt later outgoing1 r w with
      | Finished response w1 c1 =>
          let w2 := loadingIndicator_hide w1 in
          let w3 :=
            match text response with
            | Some t => if String.eqb t "" then w2 else appendMessage rt t model_message w2
            | None => w2
            end in
          Finished response w3 c1
      | other => other
      end
  end.

Definition catch_block (rt : Runtime) (e : error) (w : world) : world :=
  let w1 := console_error e w in
  let w2 := loadingIndicator_hide w1 in
  appendMessage rt ("Error: " ++ message e) model_message w2.

Definition finally_block (w : world) : world :=
  set_form (promptInput_value w) false true w.

(** How one run of the submit listener ends: it returns, or it stays
    suspended at an [await] that never settles. *)
Inductive handlerResult : Type :=
| Returned (w : world) (c : chat)
| Suspended (w : world) (c : chat).

(** The state in which the listener enters [try]. *)
Definition before_try (rt : Runtime) (w : world) : world :=
  let userMessage := trim rt (promptInput_value w) in
  let w1 := set_form "" true (promptInput_focused w) w in
  let w2 := appendMessage rt userMessage user_message w1 in
  loadingIndicator_show w2.

(** The submit listener of the prompt form. *)
Definition promptForm_submit (rt : Runtime) (c : chat) (w : world) : handlerResult :=
  let userMessage := trim rt (promptInput_value w) in
  if String.eqb userMessage "" then Returned w c
  else
    match try_block rt userMessage c (before_try rt w) with
    | Finished _ w1 c1 => Returned (finally_block w1) c1
    | Threw e w1 c1 => Returned (finally_block (catch_block rt e w1)) c1
    | Awaiting w1 c1 => Suspended w1 c1
    end.

(** ** Modal event listeners *)

Definition hideModal (w : world) : world :=
  set_actionToConfirm None (set_modal (modalBody w) true w).

(** An exception in a listener ends the listener: when the template
    literal throws on a staged value, nothing is rendered and the modal
    stays. *)
Definition confirmBtn_click (rt : Runtime) (w : world) : world :=
  match actionToConfirm w with
  | Some a =>
      if String.eqb (type a) "DEPLOYMENT" then
        match value_ToString (packageId a), value_ToString (nodeId a) with
        | Some package, Some node =>
            let result :=
              ("✅ Deployment of package '" ++ package
                 ++ "' successfully initiated on node '" ++ node ++ "'.")%string in
            hideModal (appendMessage rt result model_message w)
        | _, _ => w
        end
      else hideModal w
  | None => hideModal w
  end.

Definition cancelBtn_click (rt : Runtime) (w : world) : world :=
  hideModal
    (appendMessage rt "❌ Deployment action was cancelled by the user." model_message w).

Definition modalOverlay_click (rt : Runtime) (w : world) : world :=
  hideModal
    (appendMessage rt "❌ Deployment action was cancelled by the user." model_message w).

(** ** Main application logic *)

Inductive listener : Type :=
| on_confirmBtn_click
| on_cancelBtn_click
| on_modalOverlay_click
| on_modal_click
| on_promptForm_submit.

(** The chat created by [ai.chats.create]. *)
Record chatConfig : Type := {
  apiKey : string;
  model : string;
  tools : list functionDeclaration
}.

(** The application after [main]: the page, the listeners [main]
    installed, and the chat session if one was created. *)
Record app : Type := {
  page : world;
  listeners : list listener;
  session : option (chatConfig * chat)
}.

(** [main()], given [process.env.API_KEY] and the service behind the
    session it may create. *)
Definition main (rt : Runtime) (API_KEY : option string) (service : list reply)
    (w : world) : app :=
  let missing :=
    match API_KEY with
    | None => true
    | Some k => String.eqb k ""
    end in
  if missing then
    {| page :=
         appendMessage rt
           "ERROR: API_KEY is not configured. Please set it in the environment variables."
           model_message w;
       listeners := [];
       session := None |}
  else
    {| page := w;
       listeners :=
         [ on_confirmBtn_click; on_cancelBtn_click; on_modalOverlay_click;
           on_modal_click; on_promptForm_submit ];
       session :=
         Some ({| apiKey := match API_KEY with Some k => k | None => "" end;
                  model := "gemini-2.5-flash";
                  tools := nunDashboardTools |},
               {| incoming := service; outgoing := [] |}) |}.

Definition listener_eqb (a b : listener) : bool :=
  match a, b with
  | on_confirmBtn_click, on_confirmBtn_click
  | on_cancelBtn_click, on_cancelBtn_click
  | on_modalOverlay_click, on_modalOverlay_click
  | on_modal_click, on_modal_click
  | on_promptForm_submit, on_promptForm_submit => true
  | _, _ => false
  end.

(** What a user event does to the application: the listener runs if
    [main] installed it.  A suspended submit leaves the page as it stood
    at the pending [await]. *)
Definition dispatchEvent (rt : Runtime) (ev : listener) (a : app) : app :=
  if existsb (listener_eqb ev) (listeners a) then
    match ev with
    | on_confirmBtn_click =>
        {| page := confirmBtn_click rt (page a); listeners := listeners a;
           session := session a |}
    | on_cancelBtn_click =>
        {| page := cancelBtn_click rt (page a); listeners := listeners a;
           session := session a |}
    | on_modalOverlay_click =>
        {| page := modalOverlay_click rt (page a); listeners := listeners a;
           session := session a |}
    | on_modal_click => a
    | on_promptForm_submit =>
        match session a with
        | Some (cfg, c) =>
            match promptForm_submit rt c (page a) with
            | Returned w c' | Suspended w c' =>
                {| page := w; listeners := listeners a; session := Some (cfg, c') |}
            end
        | None => a
        end
    end
  else a.

(** The application after a sequence of user events. *)
Definition run_events (rt : Runtime) (evs : list listener) (a : app) : app :=
  fold_left (fun a ev => dispatchEvent rt ev a) evs a.

(** ** Reading the outputs back *)

(** [sub] occurs in [s]. *)
Definition contains (sub s : string) : Prop :=
  exists before after : string, s = (before ++ sub ++ after)%string.

Definition is_newline (a : ascii) : bool := Ascii.eqb a (ascii_of_nat 10).

(** The lines of a text, split at each newline. *)
Fixpoint lines (s : string) : list string :=
  match s with
  | EmptyString => [EmptyString]
  | String a rest =>
      if is_newline a then EmptyString :: lines rest
      else
        match lines rest with
        | l :: ls => String a l :: ls
        | [] => [String a EmptyString]
        end
  end.

Fixpoint has_newline (s : string) : bool :=
  match s with
  | EmptyString => false
  | String a rest => is_newline a || has_newline rest
  end.

(** The log entries a reply of the log fixture shows: the non-empty lines
    under its header line. *)
Definition shown_entries (s : string) : list string :=
  filter (fun l => negb (String.eqb l "")) (tl (lines s)).

(** A bulleted line begins with a hyphen and a space. *)
Definition bulleted (l : string) : bool := prefix "- " l.

(** The names of the four mock API functions. *)
Definition fixture_names : list string :=
  [ "getNodeStatus"; "getLatestVaultLogs"; "getSystemComplianceScore";
    "startDeployment" ].

(** The call carries an argument record, and every value in it has a
    string conversion. *)
Definition sound_call (c : functionCall) : bool :=
  match args c with
  | Some record => forallb convertible (Object_values record)
  | None => false
  end.

(** The call names something [mockApi] has, and is dispatched. *)
Definition is_dispatched (rt : Runtime) (c : functionCall) : bool :=
  has_property rt (name c).

(** The call carries an argument record. *)
Definition carries_record (c : functionCall) : bool :=
  match args c with Some _ => true | None => false end.


(** The two states of the confirmation modal. *)
Inductive modalState : Type := idle | awaiting_confirmation.

Definition modal_state (w : world) : modalState :=
  match actionToConfirm w with
  | Some _ => awaiting_confirmation
  | None => idle
  end.

(** What acts on the pending-action slot while the application runs: a
    function call dispatched through [mockApi], and a click on one of the
    modal's elements. *)
Inductive modalTarget : Type := confirmBtn | cancelBtn | modalOverlay | modal.

Inductive modalEvent : Type :=
| Dispatched (name : string) (vals : list value)
| Click (target : modalTarget).

Definition after_event (rt : Runtime) (ev : modalEvent) (w : world) : world :=
  match ev with
  | Dispatched name vals =>
      match call_property rt name vals w with
      | Normal _ w' => w'
      | Throw _ w' => w'
      end
  | Click confirmBtn => confirmBtn_click rt w
  | Click cancelBtn => cancelBtn_click rt w
  | Click modalOverlay => modalOverlay_click rt w
  | Click modal => w
  end.

(** One more turn of the loop: the batch is sent, and what follows is
    decided by the reply to it. *)
Definition after_send (rt : Runtime) (incoming : list reply) (outgoing : list sent)
    (batch : sent) (w : world) : tryResult :=
  match incoming with
  | [] => Awaiting w {| incoming := []; outgoing := outgoing ++ [batch] |}
  | Resolve r :: later => dispatch_loop rt later (outgoing ++ [batch]) r w
  | Reject e :: later =>
      Threw e w {| incoming := later; outgoing := outgoing ++ [batch] |}
  end.

(** The two messages the modal's listeners render. *)
Definition cancelled_message : node :=
  MessageDiv model_message
    (preformatted "❌ Deployment action was cancelled by the user.").

Definition success_message (p n : jsval) : node :=
  MessageDiv model_message
    (preformatted
       ("✅ Deployment of package '" ++ ToString p
          ++ "' successfully initiated on node '" ++ ToString n ++ "'.")).

(** The page a run of the [try] block or of the listener stands at. *)
Definition tryResult_world (t : tryResult) : world :=
  match t with
  | Finished _ w _ => w
  | Threw _ w _ => w
  | Awaiting w _ => w
  end.

Definition handlerResult_world (h : handlerResult) : world :=
  match h with
  | Returned w _ => w
  | Suspended w _ => w
  end.

(** The inputs are enabled. *)
Definition controls_enabled (w : world) : Prop :=
  promptInput_disabled w = false /\ submitButton_disabled w = false.

(** ** A runtime to evaluate examples with

    ASCII white space is trimmed, a string converts to a relative index
    when it is a plain decimal integer (and to 0, as NaN does, otherwise),
    and no text is taken for JSON. *)

Definition is_space (a : ascii) : bool :=
  let n := nat_of_ascii a in
  Nat.eqb n 32 || (Nat.leb 9 n && Nat.leb n 13).

Fixpoint dropSpaces (l : list ascii) : list ascii :=
  match l with
  | a :: rest => if is_space a then dropSpaces rest else l
  | [] => []
  end.

Definition example_trim (s : string) : string :=
  string_of_list_ascii
    (rev (dropSpaces (rev (dropSpaces (list_ascii_of_string s))))).

Definition example_runtime : Runtime :=
  {| trim := example_trim;
     StringToIntegerOrInfinity :=
       fun s =>
         match NilZero.int_of_string s with
         | Some d => Finite (Z.of_int d)
         | None => Finite 0
         end;
     JSON_reformat := fun _ => None;
     not_a_function := fun name => "mockApi[name] is not a function";
     expecting_function := fun name =>
       ("Object.prototype." ++ name ++ ": Expecting function")%string;
     cannot_convert_to_primitive := "Cannot convert object to primitive value";
     cannot_convert_to_object := "Cannot convert undefined or null to object";
     invalid_time_value := "Invalid time value" |}.

(** A page at rest: nothing pending, the modal hidden, an empty chat. *)
Definition initial_world : world :=
  {| actionToConfirm := None; modalBody := "";
     modal_hidden := true; modalOverlay_hidden := true;
     chatHistory := []; loadingIndicator_element := false;
     promptInput_value := ""; promptInput_disabled := false;
     promptInput_focused := false; submitButton_disabled := false;
     console := []; Date_now := 1700000000000 |}.

Definition type_prompt (value : string) (w : world) : world :=
  set_form value (promptInput_disabled w) (promptInput_focused w) w.

(** ** Observations on runs *)

(** The page a completion leaves. *)
Definition completion_world {A : Type} (c : completion A) : world :=
  match c with
  | Normal _ w => w
  | Throw _ w => w
  end.

Definition tryResult_chat (t : tryResult) : chat :=
  match t with
  | Finished _ _ c => c
  | Threw _ _ c => c
  | Awaiting _ c => c
  end.

Definition handlerResult_chat (h : handlerResult) : chat :=
  match h with
  | Returned _ c => c
  | Suspended _ c => c
  end.

(** [w'] differs from [w] at most in the modal and the pending action. *)
Definition same_outside_modal (w w' : world) : Prop :=
  chatHistory w' = chatHistory w
  /\ loadingIndicator_element w' = loadingIndicator_element w
  /\ promptInput_value w' = promptInput_value w
  /\ promptInput_disabled w' = promptInput_disabled w
  /\ promptInput_focused w' = promptInput_focused w
  /\ submitButton_disabled w' = submitButton_disabled w
  /\ console w' = console w
  /\ Date_now w' = Date_now w.

(** The overlay is shown with the modal, and the modal only while an
    action is pending. *)
Definition modal_consistent (w : world) : Prop :=
  modalOverlay_hidden w = modal_hidden w
  /\ (modal_hidden w = false -> modal_state w = awaiting_confirmation).

(** The inherited members whose call throws whatever its arguments. *)
Definition throwing_names : list string :=
  [ "__proto__"; "__defineGetter__"; "__defineSetter__" ].

Definition is_throwing (c : functionCall) : bool :=
  existsb (String.eqb (name c)) throwing_names.

Definition is_parts (m : sent) : bool :=
  match m with
  | SendParts _ => true
  | SendText _ => false
  end.

(** A reply that ends the loop: a rejection, or a response that requests
    no function call. *)
Definition ends_loop (rp : reply) : bool :=
  match rp with
  | Reject _ => true
  | Resolve r =>
      match functionCalls r with
      | Some (_ :: _) => false
      | _ => true
      end
  end.




Definition not_spinner (n : node) : bool := negb (is_spinner n).

(** A sequence of clicks on the modal's elements. *)
Definition click_all (rt : Runtime) (targets : list modalTarget) (w : world) : world :=
  fold_left (fun w t => after_event rt (Click t) w) targets w.

(** [w'] has the modal and the pending action of [w]. *)
Definition same_modal (w w' : world) : Prop :=
  actionToConfirm w' = actionToConfirm w
  /\ modalBody w' = modalBody w
  /\ modal_hidden w' = modal_hidden w
  /\ modalOverlay_hidden w' = modalOverlay_hidden w.

(** The action a batch of calls leaves pending: the one its last
    [startDeployment] call stages, or the one pending before. *)
Fixpoint staged_by (calls : list functionCall) (pending : option action)
    : option action :=
  match calls with
  | [] => pending
  | c :: rest =>
      staged_by rest
        (match args c with
         | Some record =>
             if String.eqb (name c) "startDeployment" then
               Some {| type := "DEPLOYMENT";
                       packageId := argument 0 (Object_values record);
                       nodeId := argument 1 (Object_values record) |}
             else pending
         | None => pending
         end)
  end.

(** The clicks that cancel: on the cancel button and on the overlay. *)
Definition is_cancel (t : modalTarget) : bool :=
  match t with
  | cancelBtn | modalOverlay => true
  | confirmBtn | modal => false
  end.

(** How many entries [slice(0, n)] takes of the five logs. *)
Definition taken (n : Z) : nat :=
  Z.to_nat (if (n <? 0)%Z then Z.max (5 + n) 0 else Z.min n 5).

(** The spinner is in the chat once when it is registered, and not at all
    when it is not. *)
Definition spinner_consistent (w : world) : Prop :=
  filter is_spinner (chatHistory w)
  = if loadingIndicator_element w then [LoadingSpinner] else [].

(** The replies of a service that asks for one deployment and then
    answers in text. *)
Definition deployment_service (p n : jsval) (t : string) : list reply :=
  [ Resolve
      {| text := None;
         functionCalls :=
           Some [ {| name := "startDeployment";
                     args := Some [("packageId", Prim p); ("nodeId", Prim n)] |} ] |};
    Resolve {| text := Some t; functionCalls := None |} ].

(** A service that requests two deployments in one batch, the second for
    a package that is an object hiding [toString]. *)
Definition unprintable_service : list reply :=
  [ Resolve
      {| text := None;
         functionCalls :=
           Some [ {| name := "startDeployment";
                     args := Some [("packageId", Prim (JString "2.0.0"));
                                   ("nodeId", Prim (JString "node-2"))] |};
                  {| name := "startDeployment";
                     args := Some [("packageId", Obj [("toString", Prim JNull)]);
                                   ("nodeId", Prim (JString "node-2"))] |} ] |} ].


Definition silent_session : chat := {| incoming := []; outgoing := [] |}.

Definition failing_session : chat :=
  {| incoming :=
       [ Resolve
           {| text := None;
              functionCalls :=
                Some [ {| name := "getNodeStatus";
                          args :=
                            Some [("nodeId", Prim (JString "ana-agi-node-1"))] |} ] |};
         Reject {| message := "quota exceeded" |} ];
     outgoing := [] |}.

(** * Properties *)

(** Case analysis on membership in [fixture_names]. *)
Ltac fixture_cases H :=
  simpl in H; destruct H as [<-|[<-|[<-|[<-|[]]]]].


(** ** Texts and lines *)

Lemma contains_intro (before sub after : string) :
  contains sub (before ++ sub ++ after)%string.
Proof. exists before, after. reflexivity. Qed.

Lemma string_app_assoc (a b c : string) :
  ((a ++ b) ++ c = a ++ (b ++ c))%string.
Proof. induction a as [|x a IH]; simpl; [reflexivity | now rewrite IH]. Qed.

Lemma has_newline_app (a b : string) :
  has_newline (a ++ b) = has_newline a || has_newline b.
Proof.
  induction a as [|c a IH]; simpl.
  - reflexivity.
  - rewrite IH. apply orb_assoc.
Qed.

Lemma lines_nonempty (s : string) : lines s <> [].
Proof.
  induction s as [|c s IH]; simpl.
  - discriminate.
  - destruct (is_newline c); [discriminate|].
    destruct (lines s); discriminate.
Qed.

(** Text without a newline in front of [s] extends the first line of [s]. *)
Lemma lines_app (h s : string) :
  has_newline h = false ->
  lines (h ++ s) = (h ++ hd EmptyString (lines s))%string :: tl (lines s).
Proof.
  induction h as [|c h IH]; simpl; intros Hh.
  - pose proof (lines_nonempty s) as Hs.
    destruct (lines s); [congruence | reflexivity].
  - apply orb_false_iff in Hh as [Hc Hh].
    rewrite Hc, (IH Hh). reflexivity.
Qed.

Lemma digits_no_newline (d : Decimal.uint) :
  has_newline (NilEmpty.string_of_uint d) = false.
Proof. induction d; simpl; auto. Qed.

Lemma NumberToString_no_newline (z : Z) : has_newline (NumberToString z) = false.
Proof.
  unfold NumberToString.
  destruct (Z.to_int z) as [d|d]; simpl;
    destruct d; simpl; auto using digits_no_newline.
Qed.

(** ** The log fixture *)

Lemma lines_getLatestVaultLogs (rt : Runtime) (now n : Z) :
  lines (getLatestVaultLogs rt now (JNumber n))
  = ("Last " ++ NumberToString n ++ " logs from the Vault:")%string
      :: lines (join nl (map formatLog (slice0 rt (logs now) (JNumber n)))).
Proof.
  unfold getLatestVaultLogs.
  set (body := join nl _).
  change (ToString (JNumber n)) with (NumberToString n).
  rewrite (lines_app "Last ") by reflexivity.
  rewrite (lines_app (NumberToString n)) by apply NumberToString_no_newline.
  rewrite (lines_app " logs from the Vault:") by reflexivity.
  change (lines (nl ++ body)) with (EmptyString :: lines body).
  simpl hd. simpl tl.
  reflexivity.
Qed.

Lemma shown_entries_firstn (now : Z) (k : nat) :
  filter (fun l => negb (String.eqb l ""))
    (lines (join nl (map formatLog (firstn k (logs now)))))
  = map formatLog (firstn k (logs now)).
Proof.
  do 6 (destruct k as [|k]; [reflexivity|]).
  reflexivity.
Qed.

(** The entries read back from the reply are the formatted slice. *)
Lemma shown_entries_getLatestVaultLogs (rt : Runtime) (now n : Z) :
  shown_entries (getLatestVaultLogs rt now (JNumber n))
  = map formatLog (slice0 rt (logs now) (JNumber n)).
Proof.
  unfold shown_entries.
  rewrite lines_getLatestVaultLogs. simpl tl.
  unfold slice0. apply shown_entries_firstn.
Qed.

Lemma bulleted_formatLog (l : list logEntry) :
  forallb bulleted (map formatLog l) = true.
Proof. induction l as [|e l IH]; simpl; auto. Qed.

Lemma slice0_length_le (rt : Runtime) (now : Z) (limit : jsval) :
  (List.length (slice0 rt (logs now) limit) <= 5)%nat.
Proof.
  unfold slice0. rewrite length_firstn. simpl List.length. lia.
Qed.

(** ** The status fixture *)

(** C2.  The status fixture knows one node.  Given its identifier, the
    reply contains that identifier and the node's status, version and CPU
    load; given any other value, the reply is the "not found" message for
    that value. *)
Theorem getNodeStatus_known_or_not_found (nodeId : jsval) :
  (nodeId = JString "ana-agi-node-1"
   /\ contains ("node " ++ ToString nodeId) (getNodeStatus nodeId)
   /\ contains "Status: Active" (getNodeStatus nodeId)
   /\ contains "Version: 2.0.0 G-Sync" (getNodeStatus nodeId)
   /\ contains "CPU Load: 12%" (getNodeStatus nodeId))
  \/
  (nodeId <> JString "ana-agi-node-1"
   /\ getNodeStatus nodeId
      = ("Error fetching status for " ++ ToString nodeId ++ ": Node not found.")%string
   /\ contains "Node not found." (getNodeStatus nodeId)).
Proof.
  unfold getNodeStatus.
  destruct (strict_equals nodeId (JString "ana-agi-node-1")) eqn:E.
  - left.
    assert (nodeId = JString "ana-agi-node-1") as ->.
    { destruct nodeId; simpl in E; try discriminate.
      apply String.eqb_eq in E. now subst. }
    split; [reflexivity|]. repeat split.
    + exists "Status for "%string,
        (":" ++ nl ++ "- Status: Active" ++ nl ++ "- Version: 2.0.0 G-Sync" ++ nl
           ++ "- CPU Load: 12%")%string.
      reflexivity.
    + exists ("Status for node ana-agi-node-1:" ++ nl ++ "- ")%string,
        (nl ++ "- Version: 2.0.0 G-Sync" ++ nl ++ "- CPU Load: 12%")%string.
      reflexivity.
    + exists ("Status for node ana-agi-node-1:" ++ nl ++ "- Status: Active" ++ nl
                ++ "- ")%string,
        (nl ++ "- CPU Load: 12%")%string.
      reflexivity.
    + exists ("Status for node ana-agi-node-1:" ++ nl ++ "- Status: Active" ++ nl
                ++ "- Version: 2.0.0 G-Sync" ++ nl ++ "- ")%string,
        EmptyString.
      reflexivity.
  - right. split; [|split].
    + intros ->. simpl in E. discriminate.
    + reflexivity.
    + exists ("Error fetching status for " ++ ToString nodeId ++ ": ")%string,
        EmptyString.
      rewrite !string_app_assoc. reflexivity.
Qed.

(** ** The log fixture and its limit *)

(** C3, as the claim states it, fails: with the limit -1 the slice drops
    the last entry only, so four entries come back. *)
Lemma getLatestVaultLogs_negative_limit :
  List.length (shown_entries (getLatestVaultLogs example_runtime 0 (JNumber (-1)))) = 4%nat
  /\ ~ (Z.of_nat
          (List.length
             (shown_entries (getLatestVaultLogs example_runtime 0 (JNumber (-1)))))
        <= -1)%Z.
Proof.
  split.
  - reflexivity.
  - vm_compute. intros H. apply H. reflexivity.
Qed.

(** C3, amended.  For every limit N that is not negative the reply shows
    at most N log entries, and for every limit each entry shown is a
    bulleted line. *)
Theorem getLatestVaultLogs_at_most_limit (rt : Runtime) (now n : Z) :
  ((0 <= n)%Z ->
   (Z.of_nat (List.length (shown_entries (getLatestVaultLogs rt now (JNumber n)))) <= n)%Z)
  /\ forallb bulleted (shown_entries (getLatestVaultLogs rt now (JNumber n))) = true.
Proof.
  rewrite shown_entries_getLatestVaultLogs. split.
  - intros Hn. rewrite length_map. unfold slice0.
    cbn [ToIntegerOrInfinity].
    destruct (Z.ltb_spec n 0) as [Hneg|_]; [lia|].
    rewrite length_firstn. lia.
  - apply bulleted_formatLog.
Qed.

Lemma getLatestVaultLogs_at_most_limit_witness :
  (0 <= 2)%Z
  /\ (Z.of_nat
        (List.length (shown_entries (getLatestVaultLogs example_runtime 0 (JNumber 2))))
      <= 2)%Z.
Proof.
  split; [lia|].
  apply (proj1 (getLatestVaultLogs_at_most_limit example_runtime 0 2)). lia.
Defined.

(** C8.  Whatever the limit, the reply shows at most five entries, the
    whole of the fixed list; a limit N above five shows exactly those five
    under a header that still reads "Last N logs". *)
Theorem getLatestVaultLogs_at_most_five (rt : Runtime) (now n : Z) :
  (List.length (shown_entries (getLatestVaultLogs rt now (JNumber n))) <= 5)%nat
  /\ ((5 < n)%Z ->
      shown_entries (getLatestVaultLogs rt now (JNumber n)) = map formatLog (logs now)
      /\ List.length (shown_entries (getLatestVaultLogs rt now (JNumber n))) = 5%nat
      /\ hd EmptyString (lines (getLatestVaultLogs rt now (JNumber n)))
         = ("Last " ++ NumberToString n ++ " logs from the Vault:")%string).
Proof.
  split.
  - rewrite shown_entries_getLatestVaultLogs, length_map.
    apply slice0_length_le.
  - intros Hn.
    assert (slice0 rt (logs now) (JNumber n) = logs now) as Hall.
    { unfold slice0. cbn [ToIntegerOrInfinity].
      destruct (Z.ltb_spec n 0) as [Hneg|_]; [lia|].
      apply firstn_all2. simpl List.length. lia. }
    rewrite shown_entries_getLatestVaultLogs, lines_getLatestVaultLogs, Hall.
    repeat split.
Qed.

Lemma getLatestVaultLogs_at_most_five_witness :
  (5 < 7)%Z
  /\ List.length (shown_entries (getLatestVaultLogs example_runtime 0 (JNumber 7))) = 5%nat
  /\ hd EmptyString (lines (getLatestVaultLogs example_runtime 0 (JNumber 7)))
     = "Last 7 logs from the Vault:".
Proof.
  split; [lia|].
  apply (proj2 (getLatestVaultLogs_at_most_five example_runtime 0 7)). lia.
Defined.

(** ** The four fixtures under dynamic dispatch *)

(** The own keys of [mockApi] are the four declared tools. *)
Lemma mockApi_keys (rt : Runtime) :
  map fst (mockApi rt) = fixture_names
  /\ map decl_name nunDashboardTools = fixture_names.
Proof. split; reflexivity. Qed.

Lemma getOwnProperty_fixture (rt : Runtime) (name : string) :
  In name fixture_names -> exists f, getOwnProperty rt name = Some f.
Proof.
  simpl. intros [<-|[<-|[<-|[<-|[]]]]]; eexists; reflexivity.
Qed.

Lemma getOwnProperty_Some (rt : Runtime) (name : string) (f : fixture) :
  getOwnProperty rt name = Some f -> In name fixture_names.
Proof.
  unfold getOwnProperty.
  destruct (find _ (mockApi rt)) as [kv|] eqn:Hfind; [|discriminate].
  intros _. apply find_some in Hfind as [Hin Heq].
  apply String.eqb_eq in Heq. subst name.
  change fixture_names with (map fst (mockApi rt)).
  apply in_map. exact Hin.
Qed.

Lemma has_property_fixture (rt : Runtime) (name : string) :
  In name fixture_names -> has_property rt name = true.
Proof.
  intros H. unfold has_property.
  destruct (getOwnProperty_fixture rt name H) as [f ->]. reflexivity.
Qed.

Lemma convertible_argument (i : nat) (vals : list value) :
  forallb convertible vals = true -> convertible (argument i vals) = true.
Proof.
  intros H. unfold argument.
  destruct (nth_in_or_default i vals (Prim JUndefined)) as [Hin| ->];
    [|reflexivity].
  rewrite forallb_forall in H. apply H. exact Hin.
Qed.

Lemma convertible_text (v : value) :
  convertible v = true -> exists s, value_ToString v = Some s.
Proof.
  unfold convertible. destruct (value_ToString v) as [s|]; [eauto|discriminate].
Qed.

(** On values that convert, and with a valid clock, the members of
    [mockApi] complete. *)
Lemma getNodeStatus_untyped_completes (rt : Runtime) (v : value) (w : world) :
  convertible v = true ->
  exists s,
    getNodeStatus_untyped rt v w = Normal s w
    /\ (prefix "Error" s = true <-> v <> Prim (JString "ana-agi-node-1")).
Proof.
  intros Hv. destruct (convertible_text v Hv) as [t Ht].
  destruct v as [p|items|members].
  - exists (getNodeStatus p). split; [reflexivity|].
    unfold getNodeStatus.
    destruct (strict_equals p (JString "ana-agi-node-1")) eqn:E.
    + split; [discriminate|]. intros Hne. exfalso. apply Hne.
      destruct p; simpl in E; try discriminate.
      apply String.eqb_eq in E. now subst.
    + split; [|reflexivity]. intros _ [= Heq]. rewrite Heq in E. discriminate.
  - exists ("Error fetching status for " ++ t ++ ": Node not found.")%string.
    unfold getNodeStatus_untyped. rewrite Ht.
    split; [reflexivity|]. split; [discriminate | reflexivity].
  - exists ("Error fetching status for " ++ t ++ ": Node not found.")%string.
    unfold getNodeStatus_untyped. rewrite Ht.
    split; [reflexivity|]. split; [discriminate | reflexivity].
Qed.

Lemma getLatestVaultLogs_untyped_completes (rt : Runtime) (v : value) (w : world) :
  convertible v = true ->
  clock_valid w = true ->
  exists limit,
    getLatestVaultLogs_untyped rt v w
    = Normal (getLatestVaultLogs rt (Date_now w) limit) w.
Proof.
  intros Hv Hclock. destruct (convertible_text v Hv) as [t Ht].
  unfold getLatestVaultLogs_untyped. rewrite Hclock.
  destruct v as [p|items|members]; [exists p; reflexivity| |];
    rewrite Ht; exists (JString t); reflexivity.
Qed.

Lemma startDeployment_completes (rt : Runtime) (p n : value) (w : world) :
  convertible p = true ->
  convertible n = true ->
  exists w',
    startDeployment rt p n w
    = Normal "Please confirm the deployment in the dialog box." w'
    /\ console w' = console w
    /\ chatHistory w' = chatHistory w
    /\ promptInput_disabled w' = promptInput_disabled w
    /\ submitButton_disabled w' = submitButton_disabled w
    /\ Date_now w' = Date_now w
    /\ actionToConfirm w'
       = Some {| type := "DEPLOYMENT"; packageId := p; nodeId := n |}
    /\ modal_hidden w' = false
    /\ modalOverlay_hidden w' = false.
Proof.
  intros Hp Hn.
  destruct (convertible_text p Hp) as [sp Hsp].
  destruct (convertible_text n Hn) as [sn Hsn].
  unfold startDeployment. rewrite Hsp, Hsn.
  eexists. split; [reflexivity|]. repeat split.
Qed.

(** C7, as the claim states it, fails: an argument record can hold an
    object that hides [toString], and on it the template literal of the
    status fixture throws. *)
Lemma fixture_throws_on_object :
  call_property example_runtime "getNodeStatus"
    [Obj [("toString", Prim (JNumber 0))]] initial_world
  = Throw {| message := "Cannot convert object to primitive value" |} initial_world
  /\ ~ (exists s w',
          call_property example_runtime "getNodeStatus"
            [Obj [("toString", Prim (JNumber 0))]] initial_world
          = Normal (Primitive (JString s)) w').
Proof.
  split; [reflexivity|].
  intros (s & w' & H). discriminate H.
Qed.

(** C7, amended.  Called in any state whose clock reads a valid time, with
    argument values that all have a string conversion (every primitive
    has one), each of the four fixtures returns a string and does not
    throw; it writes nothing to the console or the chat and leaves the
    form alone, and only [startDeployment] changes the page at all (the
    modal and the pending action).  The reply is an error text exactly
    when the status fixture is asked about anything but the node it
    knows. *)
Theorem fixtures_never_throw (rt : Runtime) (name : string) (vals : list value)
    (w : world) :
  In name fixture_names ->
  forallb convertible vals = true ->
  clock_valid w = true ->
  exists (s : string) (w' : world),
    call_property rt name vals w = Normal (Primitive (JString s)) w'
    /\ console w' = console w
    /\ chatHistory w' = chatHistory w
    /\ promptInput_disabled w' = promptInput_disabled w
    /\ submitButton_disabled w' = submitButton_disabled w
    /\ (name <> "startDeployment" -> w' = w)
    /\ (prefix "Error" s = true
        <-> name = "getNodeStatus"
            /\ argument 0 vals <> Prim (JString "ana-agi-node-1")).
Proof.
  intros H Hvals Hclock.
  pose proof (convertible_argument 0 vals Hvals) as H0.
  pose proof (convertible_argument 1 vals Hvals) as H1.
  fixture_cases H.
  - destruct (getNodeStatus_untyped_completes rt (argument 0 vals) w H0)
      as (s & Hs & Herr).
    exists s, w. unfold call_property.
    change (getOwnProperty rt "getNodeStatus")
      with (Some (fun (vals : list value) (w : world) =>
                    getNodeStatus_untyped rt (argument 0 vals) w)).
    cbv beta iota. rewrite Hs.
    repeat (split; [reflexivity || (intros _; reflexivity)|]).
    rewrite Herr. split; [intros Hne; split; [reflexivity | exact Hne] | intros [_ Hne]; exact Hne].
  - destruct (getLatestVaultLogs_untyped_completes rt (argument 0 vals) w H0 Hclock)
      as (limit & Hs).
    exists (getLatestVaultLogs rt (Date_now w) limit), w.
    unfold call_property.
    change (getOwnProperty rt "getLatestVaultLogs")
      with (Some (fun (vals : list value) (w : world) =>
                    getLatestVaultLogs_untyped rt (argument 0 vals) w)).
    cbv beta iota. rewrite Hs.
    repeat (split; [reflexivity || (intros _; reflexivity)|]).
    split; [discriminate | intros [Hn _]; discriminate].
  - exists getSystemComplianceScore, w.
    repeat (split; [reflexivity || (intros _; reflexivity)|]).
    split; [discriminate | intros [Hn _]; discriminate].
  - destruct (startDeployment_completes rt (argument 0 vals) (argument 1 vals) w H0 H1)
      as (w' & Hs & Hco & Hch & Hdis & Hsub & _).
    exists "Please confirm the deployment in the dialog box."%string, w'.
    unfold call_property.
    change (getOwnProperty rt "startDeployment")
      with (Some (fun (vals : list value) (w : world) =>
                    startDeployment rt (argument 0 vals) (argument 1 vals) w)).
    cbv beta iota. rewrite Hs.
    split; [reflexivity|]. split; [exact Hco|]. split; [exact Hch|].
    split; [exact Hdis|]. split; [exact Hsub|].
    split; [intros Hn; now elim Hn|].
    split; [discriminate | intros [Hn _]; discriminate].
Qed.

Lemma fixtures_never_throw_witness :
  In "getLatestVaultLogs" fixture_names
  /\ forallb convertible [Prim (JNumber 3)] = true
  /\ clock_valid initial_world = true
  /\ exists s w',
       call_property example_runtime "getLatestVaultLogs" [Prim (JNumber 3)]
         initial_world
       = Normal (Primitive (JString s)) w'
       /\ console w' = console initial_world.
Proof.
  assert (In "getLatestVaultLogs" fixture_names) as H by (simpl; auto).
  split; [exact H|]. split; [reflexivity|]. split; [reflexivity|].
  destruct (fixtures_never_throw example_runtime "getLatestVaultLogs"
              [Prim (JNumber 3)] initial_world H eq_refl eq_refl)
    as (s & w' & Hc & Hco & _).
  exists s, w'. split; assumption.
Defined.

(** ** The dispatch loop *)

Lemma dispatch_loop_calls (rt : Runtime) (incoming : list reply)
    (outgoing : list sent) (r : response) (w : world)
    (c : functionCall) (cs : list functionCall) :
  functionCalls r = Some (c :: cs) ->
  dispatch_loop rt incoming outgoing r w
  = match run_calls rt (c :: cs) [] w with
    | Throw e w1 => Threw e w1 {| incoming := incoming; outgoing := outgoing |}
    | Normal functionResponses w1 =>
        after_send rt incoming outgoing
          (SendParts (map FunctionResponsePart functionResponses)) w1
    end.
Proof.
  intros Hr. destruct incoming as [|[r'|e] later]; simpl; rewrite Hr; reflexivity.
Qed.

Lemma dispatch_loop_no_calls (rt : Runtime) (incoming : list reply)
    (outgoing : list sent) (r : response) (w : world) :
  functionCalls r = None \/ functionCalls r = Some [] ->
  dispatch_loop rt incoming outgoing r w
  = Finished r w {| incoming := incoming; outgoing := outgoing |}.
Proof.
  intros [Hr|Hr]; destruct incoming as [|[r'|e] later]; simpl; rewrite Hr; reflexivity.
Qed.

Lemma run_calls_fixture (rt : Runtime) (c : functionCall) (rest : list functionCall)
    (acc : list functionResponse) (w w1 : world) (f : fixture)
    (record : list (string * value)) (s : string) :
  getOwnProperty rt (name c) = Some f ->
  args c = Some record ->
  f (Object_values record) w = Normal s w1 ->
  run_calls rt (c :: rest) acc w
  = run_calls rt rest
      (acc ++ [{| fr_name := name c; fr_result := Primitive (JString s) |}]) w1.
Proof.
  intros Hf Ha Hs. simpl. unfold has_property, call_property.
  rewrite Hf, Ha, Hs. reflexivity.
Qed.

(** A call whose name [mockApi] does not have, not even by inheritance,
    is passed over. *)
Lemma run_calls_skip (rt : Runtime) (c : functionCall) (rest : list functionCall)
    (acc : list functionResponse) (w : world) :
  has_property rt (name c) = false ->
  run_calls rt (c :: rest) acc w = run_calls rt rest acc w.
Proof. intros H. simpl. rewrite H. reflexivity. Qed.

(** A call [mockApi] has a member for, but that carries no argument
    record, throws before the member is invoked. *)
Lemma run_calls_without_args (rt : Runtime) (c : functionCall)
    (rest : list functionCall) (acc : list functionResponse) (w : world) :
  has_property rt (name c) = true ->
  args c = None ->
  run_calls rt (c :: rest) acc w
  = Throw {| message := cannot_convert_to_object rt |} w.
Proof. intros H Ha. simpl. rewrite H, Ha. reflexivity. Qed.

(** [in] answers for the four own members and the twelve inherited ones. *)
Lemma has_property_spec (rt : Runtime) (name : string) :
  has_property rt name = true
  <-> In name fixture_names \/ In name ObjectPrototype_keys.
Proof.
  unfold has_property.
  destruct (getOwnProperty rt name) as [f|] eqn:Hown.
  - split; [intros _; left; eapply getOwnProperty_Some; exact Hown | reflexivity].
  - rewrite existsb_exists. split.
    + intros (k & Hk & Heq). apply String.eqb_eq in Heq. subst k. right. exact Hk.
    + intros [Hin|Hin].
      * destruct (getOwnProperty_fixture rt name Hin) as [f Hf]. congruence.
      * exists name. split; [exact Hin | apply String.eqb_refl].
Qed.

(** A call of an inherited member leaves the page as it is. *)
Lemma ObjectPrototype_call_world (rt : Runtime) (name : string) (vals : list value)
    (w : world) :
  match ObjectPrototype_call rt name vals w with
  | Normal _ w' => w'
  | Throw _ w' => w'
  end = w.
Proof.
  unfold ObjectPrototype_call, with_key.
  repeat match goal with
         | |- context [if ?b then _ else _] =>
             match type of b with bool => destruct b end
         end;
    try reflexivity;
    destruct (value_ToString (argument 0 vals)); reflexivity.
Qed.

Lemma inherited_not_own (rt : Runtime) (name : string) :
  In name ObjectPrototype_keys -> getOwnProperty rt name = None.
Proof.
  simpl In.
  intros [<-|[<-|[<-|[<-|[<-|[<-|[<-|[<-|[<-|[<-|[<-|[<-|[]]]]]]]]]]]]];
    reflexivity.
Qed.

(** No inherited name is passed over: the member is called, and either
    its result is added to the batch or the call throws. *)
Lemma inherited_names_not_skipped (rt : Runtime) (key : string)
    (vals : list (string * value)) (acc : list functionResponse) (w : world) :
  In key ObjectPrototype_keys ->
  (exists result,
      run_calls rt [ {| name := key; args := Some vals |} ] acc w
      = Normal (acc ++ [ {| fr_name := key; fr_result := result |} ]) w)
  \/ (exists e,
        run_calls rt [ {| name := key; args := Some vals |} ] acc w = Throw e w).
Proof.
  intros H.
  assert (has_property rt key = true) as Hhas
    by (apply has_property_spec; right; exact H).
  cbn [run_calls args name].
  rewrite Hhas. unfold call_property. rewrite (inherited_not_own rt key H).
  pose proof (ObjectPrototype_call_world rt key (Object_values vals) w) as Hw.
  destruct (ObjectPrototype_call rt key (Object_values vals) w) as [res w1|e w1];
    subst w1; eauto.
Qed.

(** With a valid clock and argument values that convert, the member a
    fixture name stands for completes, and the clock is as before. *)
Lemma own_member_completes (rt : Runtime) (name : string) (vals : list value)
    (w : world) :
  In name fixture_names ->
  forallb convertible vals = true ->
  clock_valid w = true ->
  exists (f : fixture) (s : string) (w' : world),
    getOwnProperty rt name = Some f
    /\ f vals w = Normal s w'
    /\ clock_valid w' = true.
Proof.
  intros H Hvals Hclock.
  pose proof (convertible_argument 0 vals Hvals) as H0.
  pose proof (convertible_argument 1 vals Hvals) as H1.
  fixture_cases H.
  - destruct (getNodeStatus_untyped_completes rt (argument 0 vals) w H0)
      as (s & Hs & _).
    eexists. exists s, w. split; [reflexivity|]. split; [exact Hs | exact Hclock].
  - destruct (getLatestVaultLogs_untyped_completes rt (argument 0 vals) w H0 Hclock)
      as (limit & Hs).
    eexists. eexists. exists w.
    split; [reflexivity|]. split; [exact Hs | exact Hclock].
  - eexists. exists getSystemComplianceScore, w.
    split; [reflexivity|]. split; [reflexivity | exact Hclock].
  - destruct (startDeployment_completes rt (argument 0 vals) (argument 1 vals) w H0 H1)
      as (w' & Hs & _ & _ & _ & _ & Hnow & _).
    eexists. eexists. exists w'.
    split; [reflexivity|]. split; [exact Hs|].
    unfold clock_valid in *. rewrite Hnow. exact Hclock.
Qed.

(** C1, as the claim states it, fails: of two calls that name mock
    fixtures the first carries no argument record, [Object.values] throws
    on it, and no batch is sent: the session is as it was. *)
Lemma dispatch_call_without_args :
  In "getSystemComplianceScore" fixture_names
  /\ In "getNodeStatus" fixture_names
  /\ dispatch_loop example_runtime
       [Resolve {| text := Some "ok"; functionCalls := None |}] [SendText "status?"]
       {| text := None;
          functionCalls :=
            Some [ {| name := "getSystemComplianceScore"; args := None |};
                   {| name := "getNodeStatus";
                      args := Some [("nodeId", Prim (JString "ana-agi-node-1"))] |} ]
       |}
       initial_world
     = Threw {| message := "Cannot convert undefined or null to object" |}
         initial_world
         {| incoming := [Resolve {| text := Some "ok"; functionCalls := None |}];
            outgoing := [SendText "status?"] |}.
Proof.
  split; [simpl; auto|]. split; [simpl; auto|]. reflexivity.
Qed.

(** C1, amended.  When the response requests two calls, both name mock
    fixtures, each carries an argument record whose values all have a
    string conversion, and the clock reads a valid time, the loop invokes
    the first fixture and then the second on the call's argument values,
    and its next send carries exactly two function responses, each under
    the name of its call and in the order of the calls; the loop resumes
    with the reply to that send. *)
Theorem dispatch_two_fixture_calls (rt : Runtime) (c1 c2 : functionCall)
    (r : response) (incoming : list reply) (outgoing : list sent) (w : world) :
  functionCalls r = Some [c1; c2] ->
  In (name c1) fixture_names ->
  In (name c2) fixture_names ->
  sound_call c1 = true ->
  sound_call c2 = true ->
  clock_valid w = true ->
  exists (f1 f2 : fixture) (record1 record2 : list (string * value))
         (s1 s2 : string) (w1 w2 : world),
    getOwnProperty rt (name c1) = Some f1
    /\ getOwnProperty rt (name c2) = Some f2
    /\ args c1 = Some record1
    /\ args c2 = Some record2
    /\ f1 (Object_values record1) w = Normal s1 w1
    /\ f2 (Object_values record2) w1 = Normal s2 w2
    /\ dispatch_loop rt incoming outgoing r w
       = after_send rt incoming outgoing
           (SendParts
              [ FunctionResponsePart
                  {| fr_name := name c1; fr_result := Primitive (JString s1) |};
                FunctionResponsePart
                  {| fr_name := name c2; fr_result := Primitive (JString s2) |} ])
           w2.
Proof.
  intros Hr H1 H2 Hc1 Hc2 Hclock.
  unfold sound_call in Hc1, Hc2.
  destruct (args c1) as [record1|] eqn:Ha1; [|discriminate].
  destruct (args c2) as [record2|] eqn:Ha2; [|discriminate].
  destruct (own_member_completes rt _ (Object_values record1) w H1 Hc1 Hclock)
    as (f1 & s1 & w1 & Hf1 & Hs1 & Hclock1).
  destruct (own_member_completes rt _ (Object_values record2) w1 H2 Hc2 Hclock1)
    as (f2 & s2 & w2 & Hf2 & Hs2 & _).
  exists f1, f2, record1, record2, s1, s2, w1, w2.
  repeat (split; [assumption || reflexivity|]).
  rewrite (dispatch_loop_calls rt incoming outgoing r w c1 [c2] Hr).
  rewrite (run_calls_fixture rt c1 [c2] [] w w1 f1 record1 s1 Hf1 Ha1 Hs1).
  rewrite (run_calls_fixture rt c2 [] _ w1 w2 f2 record2 s2 Hf2 Ha2 Hs2).
  reflexivity.
Qed.

Lemma dispatch_two_fixture_calls_witness :
  exists batch w2,
    dispatch_loop example_runtime
      [Resolve {| text := Some "ok"; functionCalls := None |}] [SendText "status?"]
      {| text := None;
         functionCalls :=
           Some [ {| name := "getSystemComplianceScore"; args := Some [] |};
                  {| name := "startDeployment";
                     args := Some [("packageId", Prim (JString "2.0.0 G-Sync"));
                                   ("nodeId", Prim (JString "ana-agi-node-1"))] |} ]
      |}
      initial_world
    = Finished {| text := Some "ok"; functionCalls := None |} w2
        {| incoming := []; outgoing := [SendText "status?"; SendParts batch] |}
    /\ List.length batch = 2%nat.
Proof.
  destruct
    (dispatch_two_fixture_calls example_runtime
       {| name := "getSystemComplianceScore"; args := Some [] |}
       {| name := "startDeployment";
          args := Some [("packageId", Prim (JString "2.0.0 G-Sync"));
                        ("nodeId", Prim (JString "ana-agi-node-1"))] |}
       {| text := None;
          functionCalls :=
            Some [ {| name := "getSystemComplianceScore"; args := Some [] |};
                   {| name := "startDeployment";
                      args := Some [("packageId", Prim (JString "2.0.0 G-Sync"));
                                    ("nodeId", Prim (JString "ana-agi-node-1"))] |} ]
       |}
       [Resolve {| text := Some "ok"; functionCalls := None |}] [SendText "status?"]
       initial_world eq_refl
       (or_intror (or_intror (or_introl eq_refl)))
       (or_intror (or_intror (or_intror (or_introl eq_refl))))
       eq_refl eq_refl eq_refl)
    as (f1 & f2 & record1 & record2 & s1 & s2 & w1 & w2 & _ & _ & _ & _ & _ & _ & H).
  eexists. exists w2. split; [exact H | reflexivity].
Defined.

(** C9, on the code: the name [toString] is none of the four mock API
    functions, yet the loop does not pass the call over.  [in] finds the
    member [mockApi] inherits, the member is invoked, and its result is
    added to the batch; with [__proto__], whose value is not a function,
    the call throws. *)
Theorem inherited_name_is_dispatched (rt : Runtime) (vals : list (string * value))
    (w : world) :
  ~ In "toString" fixture_names
  /\ run_calls rt [ {| name := "toString"; args := Some vals |} ] [] w
     = Normal
         [ {| fr_name := "toString";
              fr_result := Primitive (JString "[object Object]") |} ] w
  /\ run_calls rt [ {| name := "__proto__"; args := Some vals |} ] [] w
     = Throw {| message := not_a_function rt "__proto__" |} w.
Proof.
  split; [|split]; try reflexivity.
  simpl. intros [H|[H|[H|[H|[]]]]]; discriminate.
Qed.

(** ** The submit listener: errors and the input controls *)

Lemma finally_block_enables (w : world) : controls_enabled (finally_block w).
Proof. split; reflexivity. Qed.

(** The loop stays suspended only when no reply is left to come. *)
Lemma dispatch_loop_awaiting (rt : Runtime) (inc : list reply) :
  forall (out : list sent) (r : response) (w w' : world) (c' : chat),
    dispatch_loop rt inc out r w = Awaiting w' c' -> incoming c' = [].
Proof.
  induction inc as [|rp later IH]; intros out r w w' c'.
  - simpl. destruct (functionCalls r) as [[|c cs]|]; try discriminate.
    destruct (run_calls rt (c :: cs) [] w); [|discriminate].
    intros [= _ <-]. reflexivity.
  - simpl. destruct (functionCalls r) as [[|c cs]|]; try discriminate.
    destruct (run_calls rt (c :: cs) [] w); [|discriminate].
    destruct rp as [r'|e]; [apply IH | discriminate].
Qed.

Lemma catch_block_chat (rt : Runtime) (e : error) (w : world) :
  chatHistory (catch_block rt e w)
  = chatHistory (loadingIndicator_hide w)
      ++ [MessageDiv model_message (preformatted ("Error: " ++ message e))]
  /\ console (catch_block rt e w) = console w ++ [e].
Proof.
  unfold catch_block, loadingIndicator_hide, console_error, appendMessage.
  cbn [loadingIndicator_element chatHistory console].
  destruct (loadingIndicator_element w); split; reflexivity.
Qed.

(** A send that rejects: the first one. *)
Lemma try_block_first_send_rejects (rt : Runtime) (m : string) (c : chat)
    (w : world) (e : error) (later : list reply) :
  incoming c = Reject e :: later ->
  try_block rt m c w
  = Threw e w {| incoming := later; outgoing := outgoing c ++ [SendText m] |}.
Proof. intros H. unfold try_block. rewrite H. reflexivity. Qed.

(** Where a run left awaiting stands is where it goes on when the next
    reply arrives. *)
Lemma dispatch_loop_extend (rt : Runtime) (pre : list reply) :
  forall (out : list sent) (r : response) (w w0 : world) (c0 : chat),
    dispatch_loop rt pre out r w = Awaiting w0 c0 ->
    forall (next : reply) (post : list reply),
      dispatch_loop rt (pre ++ next :: post) out r w
      = match next with
        | Reject e => Threw e w0 {| incoming := post; outgoing := outgoing c0 |}
        | Resolve r' => dispatch_loop rt post (outgoing c0) r' w0
        end.
Proof.
  induction pre as [|rp pre IH]; intros out r w w0 c0; simpl.
  - destruct (functionCalls r) as [[|c cs]|]; try discriminate.
    destruct (run_calls rt (c :: cs) [] w) as [frs w1|e w1]; [|discriminate].
    intros [= <- <-] next post. destruct next; reflexivity.
  - destruct (functionCalls r) as [[|c cs]|]; try discriminate.
    destruct (run_calls rt (c :: cs) [] w) as [frs w1|e w1]; [|discriminate].
    destruct rp as [r'|e]; [|discriminate].
    intros H next post. apply (IH _ _ _ _ _ H).
Qed.

Lemma try_block_extend (rt : Runtime) (m : string) (pre : list reply)
    (out : list sent) (w w0 : world) (c0 : chat) :
  try_block rt m {| incoming := pre; outgoing := out |} w = Awaiting w0 c0 ->
  forall (next : reply) (post : list reply),
    try_block rt m {| incoming := pre ++ next :: post; outgoing := out |} w
    = match next with
      | Reject e => Threw e w0 {| incoming := post; outgoing := outgoing c0 |}
      | Resolve r =>
          match dispatch_loop rt post (outgoing c0) r w0 with
          | Finished response w1 c1 =>
              Finished response
                match text response with
                | Some t =>
                    if String.eqb t "" then loadingIndicator_hide w1
                    else appendMessage rt t model_message (loadingIndicator_hide w1)
                | None => loadingIndicator_hide w1
                end c1
          | other => other
          end
      end.
Proof.
  unfold try_block. cbn [incoming outgoing].
  destruct pre as [|[r0|e0] pre]; cbn [List.app].
  - intros [= <- <-] next post. destruct next; reflexivity.
  - destruct (dispatch_loop rt pre (out ++ [SendText m]) r0 w)
      as [r1 w1 c1|e1 w1 c1|w1 c1] eqn:E; try discriminate.
    intros [= <- <-] next post.
    rewrite (dispatch_loop_extend rt pre _ _ _ _ _ E next post).
    destruct next; reflexivity.
  - discriminate.
Qed.

(** C4.  Let the listener run on a non-empty prompt.  Whenever it
    returns, after success or after an error, the input field and the
    submit button are enabled.  Take the run at any point of its cycle:
    given only the replies [pre] it is left awaiting the reply to its last
    send, on the page [w0].  If the next reply rejects that send, or
    requests calls whose dispatch throws on that page, the loop is left at
    once: no further reply is taken and nothing more is sent, the error is
    logged and rendered as the last message of the chat, and the listener
    returns with the controls enabled.  The listener stays suspended,
    controls disabled, only at a send the service never settles. *)
Theorem submit_reenables_controls (rt : Runtime) (c : chat) (w : world) :
  trim rt (promptInput_value w) <> "" ->
  (forall w' c', promptForm_submit rt c w = Returned w' c' -> controls_enabled w')
  /\ (forall (pre post : list reply) (w0 : world) (c0 : chat),
        promptForm_submit rt {| incoming := pre; outgoing := outgoing c |} w
        = Suspended w0 c0 ->
        (forall e,
            incoming c = pre ++ Reject e :: post ->
            promptForm_submit rt c w
            = Returned (finally_block (catch_block rt e w0))
                {| incoming := post; outgoing := outgoing c0 |})
        /\ (forall r calls e w1,
              incoming c = pre ++ Resolve r :: post ->
              functionCalls r = Some calls ->
              calls <> [] ->
              run_calls rt calls [] w0 = Throw e w1 ->
              promptForm_submit rt c w
              = Returned (finally_block (catch_block rt e w1))
                  {| incoming := post; outgoing := outgoing c0 |}))
  /\ (forall e w1,
        controls_enabled (finally_block (catch_block rt e w1))
        /\ chatHistory (finally_block (catch_block rt e w1))
           = chatHistory (loadingIndicator_hide w1)
               ++ [MessageDiv model_message (preformatted ("Error: " ++ message e))]
        /\ console (finally_block (catch_block rt e w1)) = console w1 ++ [e])
  /\ (forall w' c', promptForm_submit rt c w = Suspended w' c' -> incoming c' = []).
Proof.
  intros Hne. apply String.eqb_neq in Hne.
  unfold promptForm_submit. rewrite Hne.
  split; [|split; [|split]].
  - intros w' c'.
    destruct (try_block rt _ c (before_try rt w)); intros [= <- _];
      apply finally_block_enables.
  - intros pre post w0 c0 Hpre.
    assert (try_block rt (trim rt (promptInput_value w))
              {| incoming := pre; outgoing := outgoing c |} (before_try rt w)
            = Awaiting w0 c0) as Hawait.
    { destruct (try_block rt (trim rt (promptInput_value w))
                  {| incoming := pre; outgoing := outgoing c |} (before_try rt w));
        try discriminate.
      injection Hpre as <- <-. reflexivity. }
    split.
    + intros e Hinc.
      replace c with {| incoming := pre ++ Reject e :: post; outgoing := outgoing c |}
        by (destruct c; simpl in *; now subst).
      cbn [outgoing].
      rewrite (try_block_extend rt _ pre _ _ _ _ Hawait (Reject e) post).
      reflexivity.
    + intros r calls e w1 Hinc Hcalls Hsome Hthrow.
      replace c with {| incoming := pre ++ Resolve r :: post; outgoing := outgoing c |}
        by (destruct c; simpl in *; now subst).
      cbn [outgoing].
      rewrite (try_block_extend rt _ pre _ _ _ _ Hawait (Resolve r) post).
      destruct calls as [|call calls]; [congruence|].
      rewrite (dispatch_loop_calls rt post (outgoing c0) r w0 call calls Hcalls).
      rewrite Hthrow. reflexivity.
  - intros e w1. split; [apply finally_block_enables|].
    destruct (catch_block_chat rt e w1) as [Hchat Hcons].
    split; [exact Hchat | exact Hcons].
  - intros w' c'. unfold try_block.
    destruct (incoming c) as [|[r|e] later].
    + intros [= _ <-]. reflexivity.
    + destruct (dispatch_loop rt later _ r (before_try rt w)) eqn:E;
        try discriminate.
      intros [= <- <-]. eapply dispatch_loop_awaiting. exact E.
    + discriminate.
Qed.

Lemma submit_reenables_controls_witness :
  trim example_runtime (promptInput_value (type_prompt "status" initial_world)) <> ""
  /\ exists w0 c0,
       promptForm_submit example_runtime
         {| incoming :=
              [ Resolve
                  {| text := None;
                     functionCalls :=
                       Some [ {| name := "getNodeStatus";
                                 args :=
                                   Some [("nodeId", Prim (JString "ana-agi-node-1"))]
                              |} ] |} ];
            outgoing := [] |}
         (type_prompt "status" initial_world)
       = Suspended w0 c0
       /\ promptForm_submit example_runtime failing_session
            (type_prompt "status" initial_world)
          = Returned
              (finally_block
                 (catch_block example_runtime {| message := "quota exceeded" |} w0))
              {| incoming := []; outgoing := outgoing c0 |}
       /\ chatHistory
            (finally_block
               (catch_block example_runtime {| message := "quota exceeded" |} w0))
          = [ MessageDiv user_message (preformatted "status");
              MessageDiv model_message (preformatted "Error: quota exceeded") ]
       /\ List.length (outgoing c0) = 2%nat.
Proof.
  assert (trim example_runtime (promptInput_value (type_prompt "status" initial_world))
          <> "") as Hne by discriminate.
  split; [exact Hne|].
  eexists. eexists. split; [reflexivity|].
  split; [|split; reflexivity].
  exact (proj1 (proj1 (proj2
           (submit_reenables_controls example_runtime failing_session
              (type_prompt "status" initial_world) Hne))
           [ Resolve
               {| text := None;
                  functionCalls :=
                    Some [ {| name := "getNodeStatus";
                              args :=
                                Some [("nodeId", Prim (JString "ana-agi-node-1"))]
                           |} ] |} ]
           [] _ _ eq_refl)
           {| message := "quota exceeded" |} eq_refl).
Defined.

(** ** The confirmation modal *)

Lemma getNodeStatus_untyped_world (rt : Runtime) (v : value) (w : world) :
  completion_world (getNodeStatus_untyped rt v w) = w.
Proof.
  unfold getNodeStatus_untyped.
  destruct v; try reflexivity; destruct (value_ToString _); reflexivity.
Qed.

Lemma getLatestVaultLogs_untyped_world (rt : Runtime) (v : value) (w : world) :
  completion_world (getLatestVaultLogs_untyped rt v w) = w.
Proof.
  unfold getLatestVaultLogs_untyped.
  destruct (clock_valid w); [|reflexivity].
  destruct v; try reflexivity; destruct (value_ToString _); reflexivity.
Qed.

(** The page after one dispatched call. *)
Lemma dispatched_world (rt : Runtime) (name : string) (vals : list value) (w : world) :
  completion_world (call_property rt name vals w)
  = if String.eqb name "startDeployment"
    then completion_world (startDeployment rt (argument 0 vals) (argument 1 vals) w)
    else w.
Proof.
  destruct (in_dec string_dec name fixture_names) as [Hin|Hout].
  - fixture_cases Hin; unfold call_property.
    + change (getOwnProperty rt "getNodeStatus")
        with (Some (fun (vals : list value) (w : world) =>
                      getNodeStatus_untyped rt (argument 0 vals) w)).
      cbv beta iota.
      pose proof (getNodeStatus_untyped_world rt (argument 0 vals) w) as H.
      destruct (getNodeStatus_untyped rt (argument 0 vals) w); exact H.
    + change (getOwnProperty rt "getLatestVaultLogs")
        with (Some (fun (vals : list value) (w : world) =>
                      getLatestVaultLogs_untyped rt (argument 0 vals) w)).
      cbv beta iota.
      pose proof (getLatestVaultLogs_untyped_world rt (argument 0 vals) w) as H.
      destruct (getLatestVaultLogs_untyped rt (argument 0 vals) w); exact H.
    + reflexivity.
    + change (getOwnProperty rt "startDeployment")
        with (Some (fun (vals : list value) (w : world) =>
                      startDeployment rt (argument 0 vals) (argument 1 vals) w)).
      cbv beta iota.
      destruct (startDeployment rt (argument 0 vals) (argument 1 vals) w);
        reflexivity.
  - unfold call_property.
    destruct (getOwnProperty rt name) as [f|] eqn:Hown.
    + elim Hout. eapply getOwnProperty_Some. exact Hown.
    + destruct (String.eqb_spec name "startDeployment") as [->|_];
        [discriminate Hown|].
      apply ObjectPrototype_call_world.
Qed.

(** [startDeployment] stages its action whether it completes or throws. *)
Lemma startDeployment_stages (rt : Runtime) (p n : value) (w : world) :
  actionToConfirm (completion_world (startDeployment rt p n w))
  = Some {| type := "DEPLOYMENT"; packageId := p; nodeId := n |}.
Proof.
  unfold startDeployment.
  destruct (value_ToString p); [destruct (value_ToString n)|]; reflexivity.
Qed.

(** What a dispatched call does to the pending-action slot. *)
Lemma dispatched_modal_state (rt : Runtime) (name : string) (vals : list value)
    (w : world) :
  modal_state (after_event rt (Dispatched name vals) w)
  = if String.eqb name "startDeployment" then awaiting_confirmation
    else modal_state w.
Proof.
  change (after_event rt (Dispatched name vals) w)
    with (completion_world (call_property rt name vals w)).
  rewrite dispatched_world.
  destruct (String.eqb name "startDeployment"); [|reflexivity].
  unfold modal_state. rewrite startDeployment_stages. reflexivity.
Qed.

(** The click on confirm that throws, on a run.  The model requests two
    deployments in one batch, the second for a package that is no
    identifier but an object hiding [toString].  The first call shows the
    modal; the second stages its action and throws in the template
    literal.  The modal is open on a pending action, and a click on
    confirm throws in its own template literal before [hideModal]: the
    page is as before the click, the action still pending, no success
    message rendered. *)
Lemma confirm_keeps_unprintable_action :
  modal_state
    (page (run_events example_runtime [on_promptForm_submit]
             (main example_runtime (Some "key") unprintable_service
                (type_prompt "deploy" initial_world))))
  = awaiting_confirmation
  /\ modal_hidden
       (page (run_events example_runtime [on_promptForm_submit]
                (main example_runtime (Some "key") unprintable_service
                   (type_prompt "deploy" initial_world))))
     = false
  /\ page (run_events example_runtime [on_promptForm_submit; on_confirmBtn_click]
             (main example_runtime (Some "key") unprintable_service
                (type_prompt "deploy" initial_world)))
     = page (run_events example_runtime [on_promptForm_submit]
               (main example_runtime (Some "key") unprintable_service
                  (type_prompt "deploy" initial_world)))
  /\ modal_state
       (page (run_events example_runtime [on_promptForm_submit; on_confirmBtn_click]
                (main example_runtime (Some "key") unprintable_service
                   (type_prompt "deploy" initial_world))))
     = awaiting_confirmation
  /\ chatHistory
       (page (run_events example_runtime [on_promptForm_submit; on_confirmBtn_click]
                (main example_runtime (Some "key") unprintable_service
                   (type_prompt "deploy" initial_world))))
     = [ MessageDiv user_message (preformatted "deploy");
         MessageDiv model_message
           (preformatted "Error: Cannot convert object to primitive value") ].
Proof. vm_compute. repeat split; reflexivity. Qed.


(** C10.  With no deployment pending, the slot empty or holding an action
    of another type, a click on confirm only hides the modal and empties
    the slot: the chat gets no message.  A click on cancel or on the
    overlay adds the cancellation message whatever the slot holds. *)
Theorem click_without_pending_deployment (rt : Runtime) (w : world) :
  ((actionToConfirm w = None
    \/ exists a, actionToConfirm w = Some a /\ type a <> "DEPLOYMENT") ->
   confirmBtn_click rt w = hideModal w
   /\ chatHistory (confirmBtn_click rt w) = chatHistory w
   /\ actionToConfirm (confirmBtn_click rt w) = None
   /\ modal_hidden (confirmBtn_click rt w) = true
   /\ modalOverlay_hidden (confirmBtn_click rt w) = true)
  /\ chatHistory (cancelBtn_click rt w) = chatHistory w ++ [cancelled_message]
  /\ chatHistory (modalOverlay_click rt w) = chatHistory w ++ [cancelled_message]
  /\ actionToConfirm (cancelBtn_click rt w) = None
  /\ actionToConfirm (modalOverlay_click rt w) = None.
Proof.
  split; [|repeat split].
  intros H.
  assert (confirmBtn_click rt w = hideModal w) as ->.
  { unfold confirmBtn_click.
    destruct H as [->|(a & -> & Ha)]; [reflexivity|].
    apply String.eqb_neq in Ha. rewrite Ha. reflexivity. }
  repeat split.
Qed.

Lemma click_without_pending_deployment_witness :
  (actionToConfirm initial_world = None
   \/ exists a, actionToConfirm initial_world = Some a /\ type a <> "DEPLOYMENT")
  /\ chatHistory (confirmBtn_click example_runtime initial_world) = []
  /\ chatHistory (cancelBtn_click example_runtime initial_world) = [cancelled_message].
Proof.
  assert (actionToConfirm initial_world = None
          \/ exists a, actionToConfirm initial_world = Some a /\ type a <> "DEPLOYMENT")
    as H by (left; reflexivity).
  split; [exact H|].
  destruct (click_without_pending_deployment example_runtime initial_world)
    as (Hconfirm & Hcancel & _).
  destruct (Hconfirm H) as (_ & Hchat & _).
  split; [exact Hchat | exact Hcancel].
Defined.

(** ** Start-up *)

Lemma dispatchEvent_no_listeners (rt : Runtime) (ev : listener) (a : app) :
  listeners a = [] -> dispatchEvent rt ev a = a.
Proof. intros H. unfold dispatchEvent. rewrite H. reflexivity. Qed.

Lemma run_events_no_listeners (rt : Runtime) (evs : list listener) (a : app) :
  listeners a = [] -> run_events rt evs a = a.
Proof.
  intros H. induction evs as [|ev evs IH]; simpl.
  - reflexivity.
  - unfold run_events in *. simpl.
    rewrite (dispatchEvent_no_listeners rt ev a H). exact IH.
Qed.

(** C6.  Without an API key [main] adds one error message to the chat and
    returns: the rest of the page is as it was, no listener is installed,
    no chat session exists, and no sequence of later events does
    anything. *)
Theorem main_without_API_KEY (rt : Runtime) (service : list reply) (w : world) :
  page (main rt None service w)
  = appendMessage rt
      "ERROR: API_KEY is not configured. Please set it in the environment variables."
      model_message w
  /\ chatHistory (page (main rt None service w))
     = chatHistory w
         ++ [MessageDiv model_message
               (preformatted
                  "ERROR: API_KEY is not configured. Please set it in the environment variables.")]
  /\ listeners (main rt None service w) = []
  /\ session (main rt None service w) = None
  /\ forall evs : list listener,
       run_events rt evs (main rt None service w) = main rt None service w.
Proof.
  split; [reflexivity|]. split; [reflexivity|].
  split; [reflexivity|]. split; [reflexivity|].
  intros evs. apply run_events_no_listeners. reflexivity.
Qed.

(** An empty key counts as a missing one. *)
Lemma main_with_empty_API_KEY (rt : Runtime) (service : list reply) (w : world) :
  main rt (Some EmptyString) service w = main rt None service w.
Proof. reflexivity. Qed.

(** With a key, [main] leaves the chat alone, installs the five listeners
    and creates the session. *)
Lemma main_with_API_KEY (rt : Runtime) (key : string) (service : list reply)
    (w : world) :
  key <> "" ->
  page (main rt (Some key) service w) = w
  /\ List.length (listeners (main rt (Some key) service w)) = 5%nat
  /\ exists cfg,
       session (main rt (Some key) service w)
       = Some (cfg, {| incoming := service; outgoing := [] |})
       /\ apiKey cfg = key.
Proof.
  intros H. apply String.eqb_neq in H. unfold main. rewrite H.
  repeat split. eexists. split; reflexivity.
Qed.

(** ** The listener and the pending action *)

Lemma loadingIndicator_hide_action (w : world) :
  actionToConfirm (loadingIndicator_hide w) = actionToConfirm w.
Proof. unfold loadingIndicator_hide. destruct (loadingIndicator_element w); reflexivity. Qed.

Lemma loadingIndicator_show_action (w : world) :
  actionToConfirm (loadingIndicator_show w) = actionToConfirm w.
Proof. unfold loadingIndicator_show. destruct (loadingIndicator_element w); reflexivity. Qed.

Lemma run_calls_keeps_awaiting (rt : Runtime) (calls : list functionCall) :
  forall (acc : list functionResponse) (w : world),
    modal_state w = awaiting_confirmation ->
    match run_calls rt calls acc w with
    | Normal _ w' => modal_state w' = awaiting_confirmation
    | Throw _ w' => modal_state w' = awaiting_confirmation
    end.
Proof.
  induction calls as [|c rest IH]; intros acc w Hw; simpl.
  - exact Hw.
  - destruct (has_property rt (name c)); [|now apply IH].
    destruct (args c) as [record|]; [|exact Hw].
    pose proof (dispatched_modal_state rt (name c) (Object_values record) w) as Hd.
    unfold after_event in Hd. rewrite Hw in Hd.
    destruct (call_property rt (name c) (Object_values record) w) as [res w1|e w1];
      destruct (String.eqb (name c) "startDeployment"); try exact Hd;
      apply IH; exact Hd.
Qed.

Lemma dispatch_loop_keeps_awaiting (rt : Runtime) (inc : list reply) :
  forall (out : list sent) (r : response) (w : world),
    modal_state w = awaiting_confirmation ->
    modal_state (tryResult_world (dispatch_loop rt inc out r w)) = awaiting_confirmation.
Proof.
  induction inc as [|rp later IH]; intros out r w Hw; simpl;
    destruct (functionCalls r) as [[|c cs]|]; try exact Hw;
    pose proof (run_calls_keeps_awaiting rt (c :: cs) [] w Hw) as Hr;
    destruct (run_calls rt (c :: cs) [] w) as [frs w1|e w1]; try exact Hr.
  destruct rp as [r'|e]; [now apply IH | exact Hr].
Qed.

(** No run of the submit listener takes the modal out of the awaiting
    state: only the three clicks do. *)
Lemma submit_keeps_awaiting (rt : Runtime) (c : chat) (w : world) :
  modal_state w = awaiting_confirmation ->
  modal_state (handlerResult_world (promptForm_submit rt c w)) = awaiting_confirmation.
Proof.
  intros Hw. unfold promptForm_submit.
  destruct (String.eqb (trim rt (promptInput_value w)) ""); [exact Hw|].
  assert (modal_state (before_try rt w) = awaiting_confirmation) as Hb.
  { unfold before_try, modal_state. rewrite loadingIndicator_show_action. exact Hw. }
  unfold try_block.
  destruct (incoming c) as [|[r|e] later]; try exact Hb.
  - pose proof (dispatch_loop_keeps_awaiting rt later
                  (outgoing c ++ [SendText (trim rt (promptInput_value w))]) r _ Hb) as Hl.
    destruct (dispatch_loop rt later _ r (before_try rt w)) as [r' w1 c1|e w1 c1|w1 c1];
      simpl in Hl |- *; unfold modal_state in *.
    + destruct (text r') as [t|]; [destruct (String.eqb t "")|]; simpl;
        rewrite loadingIndicator_hide_action; exact Hl.
    + unfold catch_block. simpl. rewrite loadingIndicator_hide_action. exact Hl.
    + exact Hl.
  - unfold modal_state, catch_block in *. simpl.
    rewrite loadingIndicator_hide_action. exact Hb.
Qed.

(** * Further properties *)

(** ** What dispatched calls do and leave alone *)

Lemma same_outside_modal_refl (w : world) : same_outside_modal w w.
Proof. repeat split. Qed.

Lemma same_outside_modal_trans (w1 w2 w3 : world) :
  same_outside_modal w1 w2 -> same_outside_modal w2 w3 -> same_outside_modal w1 w3.
Proof.
  unfold same_outside_modal.
  intros (A1 & A2 & A3 & A4 & A5 & A6 & A7 & A8) (B1 & B2 & B3 & B4 & B5 & B6 & B7 & B8).
  repeat split; congruence.
Qed.

(** Whatever [startDeployment] keeps, a batch of calls keeps. *)
Lemma run_calls_preserves (rt : Runtime) (P : world -> Prop) :
  (forall p n w, P w -> P (completion_world (startDeployment rt p n w))) ->
  forall (calls : list functionCall) (acc : list functionResponse) (w : world),
    P w -> P (completion_world (run_calls rt calls acc w)).
Proof.
  intros Hstage. induction calls as [|c rest IH]; intros acc w Hw; simpl.
  - exact Hw.
  - destruct (has_property rt (name c)); [|now apply IH].
    destruct (args c) as [record|]; [|exact Hw].
    pose proof (dispatched_world rt (name c) (Object_values record) w) as Hd.
    assert (P (completion_world
                 (call_property rt (name c) (Object_values record) w))) as Hp.
    { rewrite Hd. destruct (String.eqb (name c) "startDeployment");
        [apply Hstage|]; exact Hw. }
    destruct (call_property rt (name c) (Object_values record) w) as [res w1|e w1].
    + apply IH. exact Hp.
    + exact Hp.
Qed.

Lemma startDeployment_same_outside (rt : Runtime) (p n : value) (w w' : world) :
  same_outside_modal w w' ->
  same_outside_modal w (completion_world (startDeployment rt p n w')).
Proof.
  intros H. eapply same_outside_modal_trans; [exact H|].
  unfold startDeployment.
  destruct (value_ToString p); [destruct (value_ToString n)|]; repeat split.
Qed.

Lemma run_calls_same_outside (rt : Runtime) (calls : list functionCall)
    (acc : list functionResponse) (w0 w : world) :
  same_outside_modal w0 w ->
  same_outside_modal w0 (completion_world (run_calls rt calls acc w)).
Proof.
  apply (run_calls_preserves rt (same_outside_modal w0)).
  intros p n w' H. now apply startDeployment_same_outside.
Qed.

(** X1.  A batch of dispatched calls, whatever their names and arguments
    and whether it completes or throws, changes nothing on the page but
    the modal and the pending action: chat, spinner, form, console and
    clock are as before. *)
Theorem run_calls_outside_modal (rt : Runtime) (calls : list functionCall)
    (acc : list functionResponse) (w : world) :
  same_outside_modal w (completion_world (run_calls rt calls acc w)).
Proof.
  apply run_calls_same_outside, same_outside_modal_refl.
Qed.

(** X2.  When a batch completes, its function responses are, after those
    already collected, one per call whose name [mockApi] has (own or
    inherited), under that name and in the order of the calls. *)
Theorem run_calls_names (rt : Runtime) (calls : list functionCall) :
  forall (acc frs : list functionResponse) (w w' : world),
    run_calls rt calls acc w = Normal frs w' ->
    map fr_name frs
    = map fr_name acc ++ filter (has_property rt) (map name calls).
Proof.
  induction calls as [|c rest IH]; intros acc frs w w'; simpl.
  - intros [= <- _]. now rewrite app_nil_r.
  - destruct (has_property rt (name c)).
    + destruct (args c) as [record|]; [|discriminate].
      destruct (call_property rt (name c) (Object_values record) w) as [res w1|e w1];
        [|discriminate].
      intros H. rewrite (IH _ _ _ _ H), map_app, <- app_assoc. reflexivity.
    + apply IH.
Qed.

Lemma run_calls_names_witness :
  exists frs w',
    run_calls example_runtime
      [ {| name := "getNodeStatus";
           args := Some [("nodeId", Prim (JString "node-9"))] |};
        {| name := "restartNode"; args := None |};
        {| name := "getSystemComplianceScore"; args := Some [] |} ] [] initial_world
    = Normal frs w'
    /\ map fr_name frs = ["getNodeStatus"; "getSystemComplianceScore"].
Proof.
  destruct (run_calls example_runtime
              [ {| name := "getNodeStatus";
                   args := Some [("nodeId", Prim (JString "node-9"))] |};
                {| name := "restartNode"; args := None |};
                {| name := "getSystemComplianceScore"; args := Some [] |} ] []
              initial_world) as [frs w'|e w'] eqn:E.
  - exists frs, w'. split; [reflexivity|].
    exact (run_calls_names example_runtime _ _ _ _ _ E).
  - vm_compute in E. discriminate E.
Defined.

(** A call that completes did not name a member that always throws. *)
Lemma call_property_normal_name (rt : Runtime) (name : string) (vals : list value)
    (w w' : world) (res : jsresult) :
  has_property rt name = true ->
  call_property rt name vals w = Normal res w' ->
  existsb (String.eqb name) throwing_names = false.
Proof.
  intros H Hcall. apply has_property_spec in H as [Hin|Hin].
  - fixture_cases Hin; reflexivity.
  - simpl In in Hin.
    destruct Hin as [<-|[<-|[<-|[<-|[<-|[<-|[<-|[<-|[<-|[<-|[<-|[<-|[]]]]]]]]]]]]];
      try reflexivity; discriminate Hcall.
Qed.

(** With a valid clock and argument values that convert, a call throws
    only under a name whose member always throws. *)
Lemma call_property_throw_spec (rt : Runtime) (name : string) (vals : list value)
    (w : world) :
  has_property rt name = true ->
  forallb convertible vals = true ->
  clock_valid w = true ->
  match call_property rt name vals w with
  | Throw _ _ => existsb (String.eqb name) throwing_names = true
  | Normal _ w' =>
      existsb (String.eqb name) throwing_names = false /\ clock_valid w' = true
  end.
Proof.
  intros H Hvals Hclock. apply has_property_spec in H as [Hin|Hin].
  - destruct (own_member_completes rt name vals w Hin Hvals Hclock)
      as (f & s & w' & Hg & Hf & Hc).
    unfold call_property. rewrite Hg, Hf.
    split; [fixture_cases Hin; reflexivity | exact Hc].
  - destruct (convertible_text _ (convertible_argument 0 vals Hvals)) as (key & Hkey).
    simpl In in Hin.
    destruct Hin as [<-|[<-|[<-|[<-|[<-|[<-|[<-|[<-|[<-|[<-|[<-|[<-|[]]]]]]]]]]]]];
      cbn -[argument value_ToString]; unfold with_key; rewrite ?Hkey;
      try reflexivity; split; solve [reflexivity | exact Hclock].
Qed.

Lemma is_throwing_has_property (rt : Runtime) (c : functionCall) :
  has_property rt (name c) = false -> is_throwing c = false.
Proof.
  intros H. unfold is_throwing.
  destruct (existsb (String.eqb (name c)) throwing_names) eqn:E; [|reflexivity].
  apply existsb_exists in E as (k & Hk & Heq).
  apply String.eqb_eq in Heq. subst k.
  assert (has_property rt (name c) = true) as Ht.
  { apply has_property_spec. right.
    simpl in Hk. destruct Hk as [<-|[<-|[<-|[]]]]; simpl; auto 15. }
  congruence.
Qed.

(** X3.  A batch that completes had no call named [__proto__],
    [__defineGetter__] or [__defineSetter__], and every call whose name
    [mockApi] has carried an argument record.  When the clock is valid
    and every such call carries a record whose values all have a string
    conversion, the converse holds too: the batch throws exactly when one
    of the calls has one of these three names. *)
Theorem run_calls_throws_iff (rt : Runtime) (calls : list functionCall) :
  forall (acc : list functionResponse) (w : world),
    (forall frs w',
        run_calls rt calls acc w = Normal frs w' ->
        existsb is_throwing calls = false
        /\ forallb carries_record (filter (is_dispatched rt) calls) = true)
    /\ (clock_valid w = true ->
        forallb sound_call (filter (is_dispatched rt) calls) = true ->
        match run_calls rt calls acc w with
        | Throw _ _ => existsb is_throwing calls = true
        | Normal _ _ => existsb is_throwing calls = false
        end).
Proof.
  induction calls as [|c rest IH]; intros acc w;
    cbn [run_calls existsb filter];
    try change (is_dispatched rt c) with (has_property rt (name c)).
  - split; [intros frs w' _; split|intros _ _]; reflexivity.
  - destruct (has_property rt (name c)) eqn:Hp.
    + cbn [forallb]. unfold carries_record at 1, sound_call at 1.
      destruct (args c) as [record|].
      * pose proof (call_property_normal_name rt (name c) (Object_values record) w)
          as Hn.
        pose proof (call_property_throw_spec rt (name c) (Object_values record) w Hp)
          as Hc.
        fold (is_throwing c) in Hn, Hc.
        destruct (call_property rt (name c) (Object_values record) w) as [res w1|e w1].
        -- rewrite (Hn w1 res Hp eq_refl). cbn [orb andb]. split.
           ++ apply IH.
           ++ intros Hclock Hsound. apply andb_prop in Hsound as [Hvals Hrest].
              destruct (Hc Hvals Hclock) as [_ Hclock1].
              apply IH; assumption.
        -- split; [discriminate|].
           intros Hclock Hsound. apply andb_prop in Hsound as [Hvals _].
           rewrite (Hc Hvals Hclock). reflexivity.
      * split; [discriminate | intros _ [=]].
    + rewrite (is_throwing_has_property rt c Hp). apply IH.
Qed.

Lemma run_calls_throws_iff_witness :
  clock_valid initial_world = true
  /\ match run_calls example_runtime
             [ {| name := "getLatestVaultLogs";
                  args := Some [("limit", Arr [Prim (JNumber 2)])] |};
               {| name := "restartNode"; args := None |};
               {| name := "__defineGetter__"; args := Some [] |} ]
             [] initial_world with
     | Throw e _ => message e = "Object.prototype.__defineGetter__: Expecting function"
     | Normal _ _ => False
     end.
Proof.
  split; [reflexivity|].
  pose proof (proj2 (run_calls_throws_iff example_runtime
                 [ {| name := "getLatestVaultLogs";
                      args := Some [("limit", Arr [Prim (JNumber 2)])] |};
                   {| name := "restartNode"; args := None |};
                   {| name := "__defineGetter__"; args := Some [] |} ]
                 [] initial_world) eq_refl eq_refl) as H.
  destruct (run_calls example_runtime _ [] initial_world) as [frs w'|e w'] eqn:E.
  - discriminate H.
  - vm_compute in E. injection E as <- _. reflexivity.
Defined.

(** X4.  A batch runs call by call: the calls of [a ++ b] are those of
    [a] and then, on the page and with the responses [a] leaves, those of
    [b]; once a call of [a] throws, no call of [b] is run. *)
Theorem run_calls_app (rt : Runtime) (a b : list functionCall) :
  forall (acc : list functionResponse) (w : world),
    run_calls rt (a ++ b) acc w
    = match run_calls rt a acc w with
      | Normal frs w1 => run_calls rt b frs w1
      | Throw e w1 => Throw e w1
      end.
Proof.
  induction a as [|c rest IH]; intros acc w; simpl.
  - reflexivity.
  - destruct (has_property rt (name c)); [|apply IH].
    destruct (args c) as [record|]; [|reflexivity].
    destruct (call_property rt (name c) (Object_values record) w) as [res w1|e w1];
      [apply IH | reflexivity].
Qed.

(** ** The session over a run of the submit listener *)

Lemma dispatch_loop_preserves (rt : Runtime) (P : world -> Prop) :
  (forall p n w, P w -> P (completion_world (startDeployment rt p n w))) ->
  forall (inc : list reply) (out : list sent) (r : response) (w : world),
    P w -> P (tryResult_world (dispatch_loop rt inc out r w)).
Proof.
  intros Hstage.
  induction inc as [|rp later IH]; intros out r w Hw; simpl;
    destruct (functionCalls r) as [[|c cs]|]; try exact Hw;
    pose proof (run_calls_preserves rt P Hstage (c :: cs) [] w Hw) as Hr;
    destruct (run_calls rt (c :: cs) [] w) as [frs w1|e w1]; try exact Hr.
  destruct rp as [r'|e]; [now apply IH | exact Hr].
Qed.

(** Sends and replies pair up along the loop. *)
Lemma dispatch_loop_session (rt : Runtime) (inc : list reply) :
  forall (out : list sent) (r : response) (w : world),
  exists (consumed : list reply) (batches : list sent),
    inc = consumed ++ incoming (tryResult_chat (dispatch_loop rt inc out r w))
    /\ outgoing (tryResult_chat (dispatch_loop rt inc out r w)) = out ++ batches
    /\ forallb is_parts batches = true
    /\ match dispatch_loop rt inc out r w with
       | Awaiting _ c' =>
           List.length batches = S (List.length consumed) /\ incoming c' = []
       | _ => List.length batches = List.length consumed
       end.
Proof.
  induction inc as [|rp later IH]; intros out r w; simpl.
  - destruct (functionCalls r) as [[|c cs]|];
      try solve [exists (@nil reply); exists (@nil sent); simpl; rewrite app_nil_r; auto].
    destruct (run_calls rt (c :: cs) [] w) as [frs w1|e w1].
    + exists (@nil reply); exists [SendParts (map FunctionResponsePart frs)]. simpl. auto.
    + exists (@nil reply); exists (@nil sent). simpl. rewrite app_nil_r. auto.
  - destruct (functionCalls r) as [[|c cs]|];
      try solve [exists (@nil reply); exists (@nil sent); simpl; rewrite app_nil_r; auto].
    destruct (run_calls rt (c :: cs) [] w) as [frs w1|e w1].
    + destruct rp as [r'|e].
      * destruct (IH (out ++ [SendParts (map FunctionResponsePart frs)]) r' w1)
          as (consumed & batches & Hin & Hout & Hparts & Hlen).
        exists (Resolve r' :: consumed),
          (SendParts (map FunctionResponsePart frs) :: batches).
        split; [simpl; now f_equal|].
        split; [rewrite Hout, <- app_assoc; reflexivity|].
        split; [exact Hparts|].
        destruct (dispatch_loop rt later _ r' w1); simpl;
          try (now f_equal); destruct Hlen; split; [now f_equal | assumption].
      * exists [Reject e]; exists [SendParts (map FunctionResponsePart frs)].
        simpl. auto.
    + exists (@nil reply); exists (@nil sent). simpl. rewrite app_nil_r. auto.
Qed.

Lemma try_block_resolve (rt : Runtime) (m : string) (c : chat) (w : world)
    (r : response) (later : list reply) :
  incoming c = Resolve r :: later ->
  tryResult_chat (try_block rt m c w)
  = tryResult_chat (dispatch_loop rt later (outgoing c ++ [SendText m]) r w)
  /\ match try_block rt m c w, dispatch_loop rt later (outgoing c ++ [SendText m]) r w with
     | Finished _ _ _, Finished _ _ _ => True
     | Threw e w1 _, Threw e' w1' _ => e = e' /\ w1 = w1'
     | Awaiting w1 _, Awaiting w1' _ => w1 = w1'
     | _, _ => False
     end.
Proof.
  intros H. unfold try_block. rewrite H.
  destruct (dispatch_loop rt later (outgoing c ++ [SendText m]) r w); simpl; auto.
Qed.

(** X5.  Over a run on a non-empty prompt the listener first sends the
    trimmed prompt and after it only batches of function responses; it
    takes the service's replies in order, none skipped, one per send.
    When it returns every send was answered; when it stays suspended the
    last send is the one left unanswered and no reply remains. *)
Theorem submit_session (rt : Runtime) (c : chat) (w : world) :
  trim rt (promptInput_value w) <> "" ->
  exists (consumed : list reply) (batches : list sent),
    incoming c = consumed ++ incoming (handlerResult_chat (promptForm_submit rt c w))
    /\ outgoing (handlerResult_chat (promptForm_submit rt c w))
       = outgoing c ++ SendText (trim rt (promptInput_value w)) :: batches
    /\ forallb is_parts batches = true
    /\ match promptForm_submit rt c w with
       | Returned _ _ => List.length consumed = S (List.length batches)
       | Suspended _ c' =>
           List.length consumed = List.length batches /\ incoming c' = []
       end.
Proof.
  intros Hne. apply String.eqb_neq in Hne.
  unfold promptForm_submit. rewrite Hne.
  set (m := trim rt (promptInput_value w)).
  set (w0 := before_try rt w).
  destruct (incoming c) as [|[r|e] later] eqn:Hinc.
  - unfold try_block. rewrite Hinc. exists (@nil reply); exists (@nil sent). simpl. auto.
  - destruct (try_block_resolve rt m c w0 r later Hinc) as [Hchat Hshape].
    destruct (dispatch_loop_session rt later (outgoing c ++ [SendText m]) r w0)
      as (consumed & batches & Hin & Hout & Hparts & Hlen).
    exists (Resolve r :: consumed), batches.
    destruct (try_block rt m c w0) as [r1 w1 c1|e1 w1 c1|w1 c1];
      destruct (dispatch_loop rt later (outgoing c ++ [SendText m]) r w0)
        as [r2 w2 c2|e2 w2 c2|w2 c2];
      try contradiction; simpl in *; subst;
      (split; [now f_equal|]);
      (split; [rewrite Hout, <- app_assoc; reflexivity|]);
      (split; [exact Hparts|]).
    + now f_equal.
    + now f_equal.
    + destruct Hlen as [Hlen Hnil]. split; [congruence | exact Hnil].
  - unfold try_block. rewrite Hinc. exists [Reject e]; exists (@nil sent). simpl. auto.
Qed.

Lemma submit_session_witness :
  trim example_runtime (promptInput_value (type_prompt " logs " initial_world)) <> ""
  /\ exists batches,
       outgoing
         (handlerResult_chat
            (promptForm_submit example_runtime
               {| incoming :=
                    [ Resolve
                        {| text := None;
                           functionCalls :=
                             Some [ {| name := "getLatestVaultLogs";
                                       args := Some [("limit", Prim (JNumber 1))] |} ] |};
                      Resolve {| text := Some "One entry."; functionCalls := None |} ];
                  outgoing := [] |}
               (type_prompt " logs " initial_world)))
       = SendText "logs" :: batches
       /\ forallb is_parts batches = true.
Proof.
  assert (trim example_runtime (promptInput_value (type_prompt " logs " initial_world))
          <> "") as Hne by discriminate.
  split; [exact Hne|].
  destruct (submit_session example_runtime
              {| incoming :=
                   [ Resolve
                       {| text := None;
                          functionCalls :=
                            Some [ {| name := "getLatestVaultLogs";
                                      args := Some [("limit", Prim (JNumber 1))] |} ] |};
                     Resolve {| text := Some "One entry."; functionCalls := None |} ];
                 outgoing := [] |}
              (type_prompt " logs " initial_world) Hne)
    as (consumed & batches & _ & Hout & Hparts & _).
  exists batches. split; [exact Hout | exact Hparts].
Defined.

Lemma submit_first_send (rt : Runtime) (c : chat) (w : world) :
  trim rt (promptInput_value w) <> "" ->
  exists rest : list sent,
    outgoing (handlerResult_chat (promptForm_submit rt c w))
    = outgoing c ++ SendText (trim rt (promptInput_value w)) :: rest.
Proof.
  intros Hne. apply String.eqb_neq in Hne.
  unfold promptForm_submit. rewrite Hne.
  destruct (incoming c) as [|[r|e] later] eqn:Hinc.
  - unfold try_block. rewrite Hinc. exists []. reflexivity.
  - destruct (try_block_resolve rt (trim rt (promptInput_value w)) c
                (before_try rt w) r later Hinc) as [Hchat _].
    destruct (dispatch_loop_session rt later
                (outgoing c ++ [SendText (trim rt (promptInput_value w))]) r
                (before_try rt w)) as (_ & batches & _ & Hout & _).
    exists batches.
    destruct (try_block rt (trim rt (promptInput_value w)) c (before_try rt w));
      simpl in *; rewrite Hchat, Hout, <- app_assoc; reflexivity.
  - unfold try_block. rewrite Hinc. exists []. reflexivity.
Qed.

(** X6.  The listener leaves the session as it was exactly when the
    trimmed prompt is empty: then nothing is sent and the page is
    untouched; otherwise something is sent. *)
Theorem submit_sends_iff_prompt (rt : Runtime) (c : chat) (w : world) :
  (trim rt (promptInput_value w) = ""
   /\ promptForm_submit rt c w = Returned w c)
  \/ (trim rt (promptInput_value w) <> ""
      /\ List.length (outgoing (handlerResult_chat (promptForm_submit rt c w)))
         > List.length (outgoing c)).
Proof.
  destruct (String.eqb_spec (trim rt (promptInput_value w)) "") as [He|Hne].
  - left. split; [exact He|].
    unfold promptForm_submit. rewrite He. reflexivity.
  - right. split; [exact Hne|].
    destruct (submit_first_send rt c w Hne) as (rest & Hout).
    rewrite Hout, length_app. simpl. lia.
Qed.

(** ** The page over a run of the submit listener *)

Lemma before_try_page (rt : Runtime) (w : world) :
  loadingIndicator_element (before_try rt w) = true
  /\ promptInput_value (before_try rt w) = ""
  /\ promptInput_disabled (before_try rt w) = true
  /\ submitButton_disabled (before_try rt w) = true
  /\ console (before_try rt w) = console w
  /\ chatHistory (before_try rt w)
     = chatHistory w
         ++ MessageDiv user_message (preformatted (trim rt (promptInput_value w)))
         :: (if loadingIndicator_element w then [] else [LoadingSpinner]).
Proof.
  unfold before_try, loadingIndicator_show, appendMessage. simpl.
  destruct (loadingIndicator_element w); simpl; repeat split.
  rewrite <- app_assoc. reflexivity.
Qed.

Lemma loadingIndicator_hide_shown (w : world) :
  loadingIndicator_element w = true ->
  chatHistory (loadingIndicator_hide w) = filter not_spinner (chatHistory w)
  /\ loadingIndicator_element (loadingIndicator_hide w) = false
  /\ console (loadingIndicator_hide w) = console w
  /\ promptInput_value (loadingIndicator_hide w) = promptInput_value w.
Proof. intros H. unfold loadingIndicator_hide. rewrite H. repeat split. Qed.

Lemma filter_before_try (rt : Runtime) (w : world) :
  filter not_spinner (chatHistory (before_try rt w))
  = filter not_spinner (chatHistory w)
      ++ [MessageDiv user_message (preformatted (trim rt (promptInput_value w)))].
Proof.
  destruct (before_try_page rt w) as (_ & _ & _ & _ & _ & ->).
  rewrite filter_app. destruct (loadingIndicator_element w); reflexivity.
Qed.

(** The page the [try] block leaves, from the page it started on. *)
Lemma try_block_world (rt : Runtime) (m : string) (c : chat) (w0 : world) :
  match try_block rt m c w0 with
  | Finished r w3 _ =>
      exists w1,
        same_outside_modal w0 w1
        /\ w3 = match text r with
                | Some t =>
                    if String.eqb t "" then loadingIndicator_hide w1
                    else appendMessage rt t model_message (loadingIndicator_hide w1)
                | None => loadingIndicator_hide w1
                end
  | Threw _ w1 _ => same_outside_modal w0 w1
  | Awaiting w1 _ => same_outside_modal w0 w1
  end.
Proof.
  unfold try_block.
  destruct (incoming c) as [|[r|e] later]; try apply same_outside_modal_refl.
  assert (same_outside_modal w0
            (tryResult_world
               (dispatch_loop rt later (outgoing c ++ [SendText m]) r w0))) as H.
  { apply (dispatch_loop_preserves rt (same_outside_modal w0)).
    - intros p n w' Hw'. now apply startDeployment_same_outside.
    - apply same_outside_modal_refl. }
  destruct (dispatch_loop rt later (outgoing c ++ [SendText m]) r w0)
    as [r1 w1 c1|e1 w1 c1|w1 c1]; simpl in H; try exact H.
  exists w1. split; [exact H | reflexivity].
Qed.




(** X8.  While a run stays suspended at an unanswered send, the input
    field and the button are disabled, the prompt field is empty, the
    spinner is registered, and the chat holds the user's message (and the
    spinner the run added) but no reply. *)
Theorem suspended_page (rt : Runtime) (c c' : chat) (w w' : world) :
  promptForm_submit rt c w = Suspended w' c' ->
  promptInput_disabled w' = true
  /\ submitButton_disabled w' = true
  /\ promptInput_value w' = ""
  /\ loadingIndicator_element w' = true
  /\ chatHistory w'
     = chatHistory w
         ++ MessageDiv user_message (preformatted (trim rt (promptInput_value w)))
         :: (if loadingIndicator_element w then [] else [LoadingSpinner]).
Proof.
  unfold promptForm_submit.
  destruct (String.eqb (trim rt (promptInput_value w)) ""); [discriminate|].
  pose proof (try_block_world rt (trim rt (promptInput_value w)) c (before_try rt w))
    as Hw.
  destruct (before_try_page rt w) as (Hel & Hval & Hdis & Hsub & _ & Hchat).
  destruct (try_block rt (trim rt (promptInput_value w)) c (before_try rt w))
    as [r w3 c3|e w1 c1|w1 c1]; try discriminate.
  intros [= <- <-].
  destruct Hw as (S1 & S2 & S3 & S4 & _ & S6 & _ & _).
  repeat split; congruence.
Qed.

Lemma suspended_page_witness :
  exists w' c',
    promptForm_submit example_runtime silent_session
      (type_prompt "hello" initial_world)
    = Suspended w' c'
    /\ promptInput_disabled w' = true
    /\ submitButton_disabled w' = true.
Proof.
  destruct (promptForm_submit example_runtime silent_session
              (type_prompt "hello" initial_world)) as [w' c'|w' c'] eqn:E.
  - vm_compute in E. discriminate E.
  - exists w', c'. split; [reflexivity|].
    destruct (suspended_page example_runtime _ _ _ _ E) as (Hdis & Hsub & _).
    split; [exact Hdis | exact Hsub].
Defined.

Lemma dispatch_loop_ends (rt : Runtime) (inc : list reply) :
  existsb ends_loop inc = true ->
  forall (out : list sent) (r : response) (w : world),
    match dispatch_loop rt inc out r w with
    | Awaiting _ _ => False
    | _ => True
    end.
Proof.
  induction inc as [|rp later IH]; intros Hex out r w; [discriminate|].
  cbn [dispatch_loop].
  destruct (functionCalls r) as [[|c cs]|]; try exact I.
  destruct (run_calls rt (c :: cs) [] w) as [frs w1|e w1]; [|exact I].
  destruct rp as [r'|e]; [|exact I].
  cbn [existsb] in Hex.
  destruct (ends_loop (Resolve r')) eqn:Hend.
  - rewrite dispatch_loop_no_calls; [exact I|].
    simpl in Hend. destruct (functionCalls r') as [[|c' cs']|]; auto. discriminate.
  - apply IH. exact Hex.
Qed.

(** X9.  The listener returns whenever the replies to come include one
    that ends the loop, a rejection or a response requesting no function
    call: it stays suspended only if the service lets every reply request
    further calls and then falls silent. *)
Theorem submit_returns (rt : Runtime) (c : chat) (w : world) :
  existsb ends_loop (incoming c) = true ->
  exists w' c', promptForm_submit rt c w = Returned w' c'.
Proof.
  intros Hex. unfold promptForm_submit.
  destruct (String.eqb (trim rt (promptInput_value w)) ""); [eauto|].
  unfold try_block.
  destruct (incoming c) as [|[r|e] later]; [discriminate| |eauto].
  cbn [existsb] in Hex.
  assert (match dispatch_loop rt later
                  (outgoing c ++ [SendText (trim rt (promptInput_value w))]) r
                  (before_try rt w) with
          | Awaiting _ _ => False
          | _ => True
          end) as Hd.
  { destruct (ends_loop (Resolve r)) eqn:Hend.
    - rewrite dispatch_loop_no_calls; [exact I|].
      simpl in Hend. destruct (functionCalls r) as [[|c0 cs0]|]; auto. discriminate.
    - apply dispatch_loop_ends. exact Hex. }
  destruct (dispatch_loop rt later _ r (before_try rt w)); [eauto|eauto|contradiction].
Qed.

Lemma submit_returns_witness :
  existsb ends_loop (incoming failing_session) = true
  /\ exists w' c',
       promptForm_submit example_runtime failing_session
         (type_prompt "status" initial_world)
       = Returned w' c'.
Proof.
  split; [reflexivity|].
  exact (submit_returns example_runtime failing_session
           (type_prompt "status" initial_world) eq_refl).
Defined.

(** ** The modal over whole runs *)

Lemma modal_consistent_same_modal (w w' : world) :
  modal_consistent w -> same_modal w w' -> modal_consistent w'.
Proof.
  unfold modal_consistent, same_modal, modal_state.
  intros [H1 H2] (A & _ & B & C). rewrite A, B, C. split; assumption.
Qed.

Lemma rendering_same_modal (rt : Runtime) (w : world) :
  same_modal w (before_try rt w)
  /\ same_modal w (loadingIndicator_hide w)
  /\ same_modal w (finally_block w)
  /\ (forall content cls, same_modal w (appendMessage rt content cls w))
  /\ (forall e, same_modal w (catch_block rt e w)).
Proof.
  unfold same_modal, before_try, loadingIndicator_hide, loadingIndicator_show,
    catch_block, appendMessage, console_error.
  simpl. destruct (loadingIndicator_element w); simpl; repeat split.
Qed.

Lemma same_modal_trans (w1 w2 w3 : world) :
  same_modal w1 w2 -> same_modal w2 w3 -> same_modal w1 w3.
Proof.
  unfold same_modal. intros (A1 & A2 & A3 & A4) (B1 & B2 & B3 & B4).
  repeat split; congruence.
Qed.

(** What the fixtures and the rendering steps keep, the listener keeps. *)
Lemma submit_preserves (rt : Runtime) (P : world -> Prop) :
  (forall p n w, P w -> P (completion_world (startDeployment rt p n w))) ->
  (forall w w', P w -> same_modal w w' -> P w') ->
  forall (c : chat) (w : world),
    P w -> P (handlerResult_world (promptForm_submit rt c w)).
Proof.
  intros Hstage Hrender c w Hw. unfold promptForm_submit.
  destruct (String.eqb (trim rt (promptInput_value w)) ""); [exact Hw|].
  assert (P (before_try rt w)) as Hb
    by (apply (Hrender w); [exact Hw | apply (proj1 (rendering_same_modal rt w))]).
  assert (forall w1, P w1 -> P (finally_block w1)) as Hfinally.
  { intros w1 H1. apply (Hrender w1); [exact H1|].
    apply (proj1 (proj2 (proj2 (rendering_same_modal rt w1)))). }
  assert (forall w1, P w1 -> P (loadingIndicator_hide w1)) as Hhide.
  { intros w1 H1. apply (Hrender w1); [exact H1|].
    apply (proj1 (proj2 (rendering_same_modal rt w1))). }
  assert (forall t cls w1, P w1 -> P (appendMessage rt t cls w1)) as Happend.
  { intros t cls w1 H1. apply (Hrender w1); [exact H1|].
    apply (proj1 (proj2 (proj2 (proj2 (rendering_same_modal rt w1))))). }
  assert (forall e w1, P w1 -> P (finally_block (catch_block rt e w1))) as Hcatch.
  { intros e w1 H1. apply Hfinally. apply (Hrender w1); [exact H1|].
    apply (proj2 (proj2 (proj2 (proj2 (rendering_same_modal rt w1))))). }
  unfold try_block.
  destruct (incoming c) as [|[r|e] later]; simpl; [exact Hb| |now apply Hcatch].
  pose proof (dispatch_loop_preserves rt P Hstage later
                (outgoing c ++ [SendText (trim rt (promptInput_value w))]) r _ Hb) as Hl.
  destruct (dispatch_loop rt later _ r (before_try rt w)) as [r' w1 c1|e w1 c1|w1 c1];
    simpl in Hl |- *; [| now apply Hcatch | exact Hl].
  apply Hfinally.
  destruct (text r') as [t|]; [destruct (String.eqb t "")|]; auto.
Qed.

Lemma startDeployment_modal_consistent (rt : Runtime) (p n : value) (w : world) :
  modal_consistent w ->
  modal_consistent (completion_world (startDeployment rt p n w)).
Proof.
  intros [H1 H2]. unfold startDeployment.
  destruct (value_ToString p); [destruct (value_ToString n)|];
    split; solve [reflexivity | exact H1].
Qed.

Lemma hideModal_modal_consistent (w : world) : modal_consistent (hideModal w).
Proof. split; [reflexivity | discriminate]. Qed.

Lemma dispatchEvent_modal_consistent (rt : Runtime) (ev : listener) (a : app) :
  modal_consistent (page a) -> modal_consistent (page (dispatchEvent rt ev a)).
Proof.
  intros H. unfold dispatchEvent.
  destruct (existsb (listener_eqb ev) (listeners a)); [|exact H].
  destruct ev; try exact H; try apply hideModal_modal_consistent.
  - cbn [page]. unfold confirmBtn_click.
    destruct (actionToConfirm (page a)) as [act|];
      [|apply hideModal_modal_consistent].
    destruct (String.eqb (type act) "DEPLOYMENT");
      [|apply hideModal_modal_consistent].
    destruct (value_ToString (packageId act));
      [destruct (value_ToString (nodeId act))|];
      solve [apply hideModal_modal_consistent | exact H].
  - destruct (session a) as [[cfg c]|]; [|exact H].
    pose proof (submit_preserves rt modal_consistent
                  (startDeployment_modal_consistent rt)
                  modal_consistent_same_modal c (page a) H) as Hs.
    destruct (promptForm_submit rt c (page a)); exact Hs.
Qed.

(** X10.  The overlay is shown with the modal, and the modal only while
    an action is pending: if that holds of the page, it holds after every
    sequence of submits and clicks, whatever the service replies.  The
    converse is not kept: [startDeployment] stages the action before it
    builds the modal's text, so a call whose argument has no string
    conversion leaves an action pending behind a hidden modal. *)
Theorem modal_shown_only_while_pending (rt : Runtime) (evs : list listener) :
  (forall a : app,
      modal_consistent (page a) -> modal_consistent (page (run_events rt evs a)))
  /\ (forall (p n : value) (w : world),
        convertible p && convertible n = false ->
        modal_state (completion_world (startDeployment rt p n w))
        = awaiting_confirmation
        /\ modal_hidden (completion_world (startDeployment rt p n w))
           = modal_hidden w).
Proof.
  split.
  - unfold run_events.
    induction evs as [|ev evs IH]; intros a H; simpl.
    + exact H.
    + apply IH. apply dispatchEvent_modal_consistent. exact H.
  - intros p n w. unfold convertible, startDeployment.
    destruct (value_ToString p); [destruct (value_ToString n)|];
      try discriminate; intros _; split; reflexivity.
Qed.

Lemma modal_shown_only_while_pending_witness :
  modal_consistent initial_world
  /\ modal_consistent
       (page
          (run_events example_runtime [on_promptForm_submit; on_cancelBtn_click]
             (main example_runtime (Some "key")
                (deployment_service (JString "2.0.0") (JString "node-2") "Staged.")
                (type_prompt "deploy" initial_world))))
  /\ modal_state
       (completion_world
          (startDeployment example_runtime (Obj [("toString", Prim JNull)])
             (Prim (JString "node-2")) initial_world))
     = awaiting_confirmation
  /\ modal_hidden
       (completion_world
          (startDeployment example_runtime (Obj [("toString", Prim JNull)])
             (Prim (JString "node-2")) initial_world))
     = true.
Proof.
  assert (modal_consistent initial_world) as H by (split; [reflexivity | discriminate]).
  split; [exact H|].
  split.
  - apply (proj1 (modal_shown_only_while_pending example_runtime
                    [on_promptForm_submit; on_cancelBtn_click])).
    split; [reflexivity | discriminate].
  - exact (proj2 (modal_shown_only_while_pending example_runtime [])
             (Obj [("toString", Prim JNull)]) (Prim (JString "node-2"))
             initial_world eq_refl).
Defined.

(** X11.  When a batch of calls completes, the pending action is the one
    staged by the last [startDeployment] call of the batch: an earlier
    staging in the same batch, or one pending before it, is replaced
    without a trace, although each call got its "please confirm" reply. *)
Theorem run_calls_last_staging_wins (rt : Runtime) (calls : list functionCall) :
  forall (acc frs : list functionResponse) (w w' : world),
    run_calls rt calls acc w = Normal frs w' ->
    actionToConfirm w' = staged_by calls (actionToConfirm w).
Proof.
  induction calls as [|c rest IH]; intros acc frs w w'; simpl.
  - intros [= _ <-]. reflexivity.
  - destruct (has_property rt (name c)) eqn:Hp.
    + destruct (args c) as [record|]; [|discriminate].
      pose proof (dispatched_world rt (name c) (Object_values record) w) as Hd.
      destruct (call_property rt (name c) (Object_values record) w) as [res w1|e w1];
        [|discriminate].
      intros H. rewrite (IH _ _ _ _ H). simpl in Hd. subst w1.
      destruct (String.eqb (name c) "startDeployment");
        [rewrite startDeployment_stages|]; reflexivity.
    + intros H. rewrite (IH _ _ _ _ H).
      destruct (args c) as [record|]; [|reflexivity].
      destruct (String.eqb_spec (name c) "startDeployment") as [Heq|_];
        [|reflexivity].
      rewrite Heq in Hp. discriminate Hp.
Qed.

Lemma run_calls_last_staging_wins_witness :
  exists frs w',
    run_calls example_runtime
      [ {| name := "startDeployment";
           args := Some [("packageId", Prim (JString "1.0"));
                        ("nodeId", Prim (JString "a"))] |};
        {| name := "startDeployment";
           args := Some [("packageId", Prim (JString "2.0"));
                        ("nodeId", Prim (JString "b"))] |} ]
      [] initial_world
    = Normal frs w'
    /\ actionToConfirm w'
       = Some {| type := "DEPLOYMENT"; packageId := Prim (JString "2.0");
                 nodeId := Prim (JString "b") |}
    /\ List.length frs = 2%nat.
Proof.
  destruct (run_calls example_runtime
              [ {| name := "startDeployment";
                   args := Some [("packageId", Prim (JString "1.0"));
                        ("nodeId", Prim (JString "a"))] |};
                {| name := "startDeployment";
                   args := Some [("packageId", Prim (JString "2.0"));
                        ("nodeId", Prim (JString "b"))] |} ]
              [] initial_world) as [frs w'|e w'] eqn:E.
  - exists frs, w'. split; [reflexivity|].
    split; [exact (run_calls_last_staging_wins example_runtime _ _ _ _ _ E)|].
    vm_compute in E. injection E as <- <-. reflexivity.
  - vm_compute in E. discriminate E.
Defined.

(** X12.  With nothing pending, clicks on the modal never render a
    success message: over any sequence of clicks the chat gains one
    cancellation message per click on cancel or on the overlay and nothing
    else, and nothing is pending afterwards.  So a staged deployment is
    confirmed at most once: after [startDeployment] and a click on
    confirm, which renders the success message, whatever clicks follow
    add only cancellation messages. *)
Theorem clicks_when_idle (rt : Runtime) (targets : list modalTarget) :
  (forall w : world,
      actionToConfirm w = None ->
      actionToConfirm (click_all rt targets w) = None
      /\ chatHistory (click_all rt targets w)
         = chatHistory w
             ++ repeat cancelled_message (List.length (filter is_cancel targets)))
  /\ (forall (p n : jsval) (w : world),
        chatHistory
          (click_all rt (confirmBtn :: targets)
             (completion_world (startDeployment rt p n w)))
        = chatHistory w
            ++ success_message p n
            :: repeat cancelled_message (List.length (filter is_cancel targets))).
Proof.
  assert (forall w : world,
             actionToConfirm w = None ->
             actionToConfirm (click_all rt targets w) = None
             /\ chatHistory (click_all rt targets w)
                = chatHistory w
                    ++ repeat cancelled_message
                         (List.length (filter is_cancel targets))) as Hidle.
  { induction targets as [|t ts IH]; intros w Hw.
    - unfold click_all. simpl. split; [exact Hw | now rewrite app_nil_r].
    - change (click_all rt (t :: ts) w)
        with (click_all rt ts (after_event rt (Click t) w)).
      destruct t; cbn [after_event filter is_cancel].
      + assert (confirmBtn_click rt w = hideModal w) as ->
          by (unfold confirmBtn_click; rewrite Hw; reflexivity).
        apply (IH (hideModal w)). reflexivity.
      + destruct (IH (cancelBtn_click rt w) eq_refl) as [Ha Hc].
        split; [exact Ha|]. rewrite Hc. cbn [List.length repeat].
        change (chatHistory (cancelBtn_click rt w))
          with (chatHistory w ++ [cancelled_message]).
        rewrite <- app_assoc. reflexivity.
      + destruct (IH (modalOverlay_click rt w) eq_refl) as [Ha Hc].
        split; [exact Ha|]. rewrite Hc. cbn [List.length repeat].
        change (chatHistory (modalOverlay_click rt w))
          with (chatHistory w ++ [cancelled_message]).
        rewrite <- app_assoc. reflexivity.
      + apply IH. exact Hw. }
  split; [exact Hidle|].
  intros p n w.
  set (w1 := completion_world (startDeployment rt p n w)).
  change (click_all rt (confirmBtn :: targets) w1)
    with (click_all rt targets (confirmBtn_click rt w1)).
  destruct (Hidle (confirmBtn_click rt w1) eq_refl) as [_ ->].
  change (chatHistory (confirmBtn_click rt w1))
    with (chatHistory w ++ [success_message p n]).
  rewrite <- app_assoc. reflexivity.
Qed.

Lemma clicks_when_idle_witness :
  actionToConfirm initial_world = None
  /\ chatHistory
       (click_all example_runtime [confirmBtn; cancelBtn; confirmBtn; modalOverlay]
          initial_world)
     = [cancelled_message; cancelled_message].
Proof.
  split; [reflexivity|].
  exact (proj2 (proj1 (clicks_when_idle example_runtime
                         [confirmBtn; cancelBtn; confirmBtn; modalOverlay])
                  initial_world eq_refl)).
Defined.

(** ** More on the log fixture *)

(** X13.  The reply of the log fixture does not depend on the clock: the
    timestamps it computes from [Date.now()] never reach the text. *)
Theorem getLatestVaultLogs_clock_independent (rt : Runtime) (now now' : Z)
    (limit : jsval) :
  getLatestVaultLogs rt now limit = getLatestVaultLogs rt now' limit.
Proof.
  unfold getLatestVaultLogs, slice0.
  change (List.length (logs now)) with (List.length (logs now')).
  rewrite <- !firstn_map. reflexivity.
Qed.

(** X14.  The exact count: for a limit N >= 0 the reply shows the first
    min(N, 5) entries of the list; for N < 0 it shows the first
    max(5 + N, 0), the list without its last -N entries. *)
Theorem getLatestVaultLogs_exact (rt : Runtime) (now n : Z) :
  shown_entries (getLatestVaultLogs rt now (JNumber n))
  = firstn (taken n) (map formatLog (logs now))
  /\ List.length (shown_entries (getLatestVaultLogs rt now (JNumber n))) = taken n.
Proof.
  assert (shown_entries (getLatestVaultLogs rt now (JNumber n))
          = firstn (taken n) (map formatLog (logs now))) as H.
  { rewrite shown_entries_getLatestVaultLogs. unfold slice0, taken.
    cbn [ToIntegerOrInfinity]. simpl List.length.
    rewrite firstn_map. reflexivity. }
  split; [exact H|].
  rewrite H, length_firstn, length_map. simpl List.length.
  unfold taken. destruct (Z.ltb_spec n 0); lia.
Qed.

Lemma string_app_nil_r (s : string) : (s ++ "")%string = s.
Proof. induction s as [|c s IH]; simpl; [reflexivity | now rewrite IH]. Qed.

Lemma lines_no_newline (s : string) : has_newline s = false -> lines s = [s].
Proof.
  intros H. rewrite <- (string_app_nil_r s) at 1.
  rewrite (lines_app s "" H). simpl. now rewrite string_app_nil_r.
Qed.

(** X15.  Joining with newlines and splitting at newlines are inverse on
    texts like the log lines: for a non-empty list of parts, none of which
    contains a newline, the lines of the joined text are the parts. *)
Theorem lines_join (parts : list string) :
  parts <> [] ->
  forallb (fun p => negb (has_newline p)) parts = true ->
  lines (join nl parts) = parts.
Proof.
  induction parts as [|p rest IH]; [congruence|].
  intros _ Hall. cbn [forallb] in Hall.
  apply andb_true_iff in Hall as [Hp Hrest]. apply negb_true_iff in Hp.
  destruct rest as [|q rest].
  - simpl. apply lines_no_newline. exact Hp.
  - change (join nl (p :: q :: rest))
      with (p ++ nl ++ join nl (q :: rest))%string.
    rewrite (lines_app p _ Hp).
    change (lines (nl ++ join nl (q :: rest)))
      with (EmptyString :: lines (join nl (q :: rest))).
    cbn [hd tl]. rewrite string_app_nil_r, IH; [reflexivity|discriminate|exact Hrest].
Qed.

Lemma lines_join_witness :
  ["- [INFO] a"; "- [WARN] b"] <> []
  /\ lines (join nl ["- [INFO] a"; "- [WARN] b"]) = ["- [INFO] a"; "- [WARN] b"].
Proof.
  assert (["- [INFO] a"; "- [WARN] b"] <> []) as H by discriminate.
  split; [exact H|].
  exact (lines_join ["- [INFO] a"; "- [WARN] b"] H eq_refl).
Defined.

(** ** The loading indicator *)

Lemma filter_spinner_none (l : list node) :
  filter is_spinner (filter not_spinner l) = [].
Proof.
  induction l as [|[cls html|] l IH]; simpl; [reflexivity| |]; exact IH.
Qed.

Lemma filter_not_spinner_all (l : list node) :
  filter is_spinner l = [] -> filter not_spinner l = l.
Proof.
  induction l as [|[cls html|] l IH]; simpl; intros H.
  - reflexivity.
  - f_equal. apply IH. exact H.
  - discriminate H.
Qed.

Lemma spinner_consistent_same (w w' : world) :
  chatHistory w' = chatHistory w ->
  loadingIndicator_element w' = loadingIndicator_element w ->
  spinner_consistent w -> spinner_consistent w'.
Proof. unfold spinner_consistent. intros -> ->. exact (fun H => H). Qed.

Lemma spinner_consistent_append (rt : Runtime) (content : string) (cls : cssClass)
    (w : world) :
  spinner_consistent w -> spinner_consistent (appendMessage rt content cls w).
Proof.
  unfold spinner_consistent, appendMessage. simpl.
  rewrite filter_app. simpl. rewrite app_nil_r. exact (fun H => H).
Qed.

Lemma spinner_consistent_show (w : world) :
  spinner_consistent w -> spinner_consistent (loadingIndicator_show w).
Proof.
  unfold spinner_consistent, loadingIndicator_show.
  destruct (loadingIndicator_element w) eqn:E; simpl.
  - rewrite E. exact (fun H => H).
  - intros H. rewrite filter_app, H. reflexivity.
Qed.

Lemma spinner_consistent_hide (w : world) :
  spinner_consistent w -> spinner_consistent (loadingIndicator_hide w).
Proof.
  unfold spinner_consistent, loadingIndicator_hide.
  destruct (loadingIndicator_element w) eqn:E; simpl.
  - intros _. apply filter_spinner_none.
  - rewrite E. exact (fun H => H).
Qed.

(** X17.  Showing the indicator twice is showing it once, hiding twice is
    hiding once, and on a page without a spinner showing and then hiding
    gives the page back. *)
Theorem loadingIndicator_show_hide (w : world) :
  loadingIndicator_show (loadingIndicator_show w) = loadingIndicator_show w
  /\ loadingIndicator_hide (loadingIndicator_hide w) = loadingIndicator_hide w
  /\ (spinner_consistent w ->
      loadingIndicator_element w = false ->
      loadingIndicator_hide (loadingIndicator_show w) = w).
Proof.
  split; [|split].
  - unfold loadingIndicator_show.
    destruct (loadingIndicator_element w) eqn:E; [now rewrite E | reflexivity].
  - unfold loadingIndicator_hide.
    destruct (loadingIndicator_element w) eqn:E; [reflexivity | now rewrite E].
  - unfold spinner_consistent, loadingIndicator_show, loadingIndicator_hide.
    intros H E. rewrite E in H |- *. simpl.
    rewrite filter_app. simpl. rewrite app_nil_r.
    change (fun n : node => negb (is_spinner n)) with not_spinner.
    rewrite (filter_not_spinner_all _ H).
    destruct w; simpl in *. subst. reflexivity.
Qed.

Lemma loadingIndicator_show_hide_witness :
  spinner_consistent initial_world
  /\ loadingIndicator_element initial_world = false
  /\ loadingIndicator_hide (loadingIndicator_show initial_world) = initial_world.
Proof.
  assert (spinner_consistent initial_world) as H by reflexivity.
  split; [exact H|]. split; [reflexivity|].
  exact (proj2 (proj2 (loadingIndicator_show_hide initial_world)) H eq_refl).
Defined.

Lemma submit_preserves_ops (rt : Runtime) (P : world -> Prop) :
  (forall p n w, P w -> P (completion_world (startDeployment rt p n w))) ->
  (forall w, P w -> P (before_try rt w)) ->
  (forall w, P w -> P (loadingIndicator_hide w)) ->
  (forall t cls w, P w -> P (appendMessage rt t cls w)) ->
  (forall e w, P w -> P (console_error e w)) ->
  (forall w, P w -> P (finally_block w)) ->
  forall (c : chat) (w : world),
    P w -> P (handlerResult_world (promptForm_submit rt c w)).
Proof.
  intros Hstage Hbefore Hhide Happend Hconsole Hfinally c w Hw.
  unfold promptForm_submit.
  destruct (String.eqb (trim rt (promptInput_value w)) ""); [exact Hw|].
  pose proof (Hbefore w Hw) as Hb.
  assert (forall e w1, P w1 -> P (finally_block (catch_block rt e w1))) as Hcatch
    by (intros e w1 H1; unfold catch_block; auto).
  unfold try_block.
  destruct (incoming c) as [|[r|e] later]; simpl; [exact Hb| |now apply Hcatch].
  pose proof (dispatch_loop_preserves rt P Hstage later
                (outgoing c ++ [SendText (trim rt (promptInput_value w))]) r _ Hb) as Hl.
  destruct (dispatch_loop rt later _ r (before_try rt w)) as [r' w1 c1|e w1 c1|w1 c1];
    simpl in Hl |- *; [| now apply Hcatch | exact Hl].
  apply Hfinally.
  destruct (text r') as [t|]; [destruct (String.eqb t "")|]; auto.
Qed.

Lemma spinner_consistent_hideModal (w : world) :
  spinner_consistent w -> spinner_consistent (hideModal w).
Proof. apply spinner_consistent_same; reflexivity. Qed.

Lemma dispatchEvent_spinner_consistent (rt : Runtime) (ev : listener) (a : app) :
  spinner_consistent (page a) -> spinner_consistent (page (dispatchEvent rt ev a)).
Proof.
  intros H. unfold dispatchEvent.
  destruct (existsb (listener_eqb ev) (listeners a)); [|exact H].
  destruct ev; try exact H; cbn [page].
  - unfold confirmBtn_click.
    destruct (actionToConfirm (page a)) as [act|];
      [destruct (String.eqb (type act) "DEPLOYMENT")|];
      try (apply spinner_consistent_hideModal; exact H).
    destruct (value_ToString (packageId act));
      [destruct (value_ToString (nodeId act))|]; try exact H.
    apply spinner_consistent_hideModal, spinner_consistent_append. exact H.
  - apply spinner_consistent_hideModal, spinner_consistent_append. exact H.
  - apply spinner_consistent_hideModal, spinner_consistent_append. exact H.
  - destruct (session a) as [[cfg c]|]; [|exact H].
    assert (spinner_consistent
              (handlerResult_world (promptForm_submit rt c (page a)))) as Hs.
    { apply submit_preserves_ops; try exact H.
      - intros p n w Hw. unfold startDeployment.
        destruct (value_ToString p); [destruct (value_ToString n)|];
          (apply (spinner_consistent_same w); [reflexivity|reflexivity|exact Hw]).
      - intros w Hw. unfold before_try.
        apply spinner_consistent_show, spinner_consistent_append.
        apply (spinner_consistent_same w); [reflexivity|reflexivity|exact Hw].
      - apply spinner_consistent_hide.
      - intros t cls w. apply spinner_consistent_append.
      - intros e w Hw.
        apply (spinner_consistent_same w); [reflexivity|reflexivity|exact Hw].
      - intros w Hw.
        apply (spinner_consistent_same w); [reflexivity|reflexivity|exact Hw]. }
    destruct (promptForm_submit rt c (page a)); exact Hs.
Qed.

(** X18.  There is never more than one spinner: if the chat holds the
    spinner once when the indicator is registered and not at all when it
    is not, this stays so over every sequence of submits and clicks. *)
Theorem one_spinner (rt : Runtime) (evs : list listener) :
  forall a : app,
    spinner_consistent (page a) -> spinner_consistent (page (run_events rt evs a)).
Proof.
  unfold run_events.
  induction evs as [|ev evs IH]; intros a H; simpl.
  - exact H.
  - apply IH. apply dispatchEvent_spinner_consistent. exact H.
Qed.

Lemma one_spinner_witness :
  spinner_consistent initial_world
  /\ spinner_consistent
       (page
          (run_events example_runtime [on_promptForm_submit; on_cancelBtn_click]
             (main example_runtime (Some "key") []
                (type_prompt "status" initial_world)))).
Proof.
  assert (spinner_consistent initial_world) as H by reflexivity.
  split; [exact H|].
  apply one_spinner. exact H.
Defined.

(** ** From the prompt to the confirmed deployment *)

Lemma submit_deployment (rt : Runtime) (p n : jsval) (t : string) (w : world) :
  trim rt (promptInput_value w) <> "" ->
  t <> "" ->
  promptForm_submit rt {| incoming := deployment_service p n t; outgoing := [] |} w
  = Returned
      (finally_block
         (appendMessage rt t model_message
            (loadingIndicator_hide (completion_world (startDeployment rt p n (before_try rt w))))))
      {| incoming := [];
         outgoing :=
           [ SendText (trim rt (promptInput_value w));
             SendParts
               [ FunctionResponsePart
                   {| fr_name := "startDeployment";
                      fr_result :=
                        Primitive
                          (JString "Please confirm the deployment in the dialog box.")
                   |} ] ] |}.
Proof.
  intros Hp Ht. apply String.eqb_neq in Hp, Ht.
  unfold promptForm_submit. rewrite Hp.
  unfold try_block, deployment_service.
  cbn [incoming outgoing dispatch_loop functionCalls text List.app].
  cbn [run_calls name args].
  change (has_property rt "startDeployment") with true.
  cbv iota.
  change (call_property rt "startDeployment"
            (Object_values [("packageId", Prim p); ("nodeId", Prim n)])
            (before_try rt w))
    with (Normal
            (Primitive (JString "Please confirm the deployment in the dialog box."))
            (completion_world (startDeployment rt p n (before_try rt w)))).
  cbv iota. cbn [map List.app text]. rewrite Ht. reflexivity.
Qed.

(** X19.  The whole path of a deployment.  The application is started
    with a key; the user submits a non-empty prompt; the model asks for
    [startDeployment] and, on the reply to it, answers in text; the user
    clicks confirm.  Then the chat has gained, in this order, the user's
    message, the model's answer and the success message for the requested
    package and node; nothing is pending, the modal is hidden, the input
    controls are enabled, and the service was sent the prompt and one
    batch holding the "please confirm" reply. *)
Theorem deployment_flow (rt : Runtime) (key prompt t : string) (p n : jsval)
    (w : world) :
  key <> "" ->
  trim rt prompt <> "" ->
  t <> "" ->
  let a :=
    run_events rt [on_promptForm_submit; on_confirmBtn_click]
      (main rt (Some key) (deployment_service p n t) (type_prompt prompt w)) in
  chatHistory (page a)
  = filter not_spinner (chatHistory w)
      ++ [ MessageDiv user_message (preformatted (trim rt prompt));
           MessageDiv model_message (messageHTML rt t model_message);
           success_message p n ]
  /\ actionToConfirm (page a) = None
  /\ modal_hidden (page a) = true
  /\ controls_enabled (page a)
  /\ exists cfg,
       session a
       = Some
           (cfg,
            {| incoming := [];
               outgoing :=
                 [ SendText (trim rt prompt);
                   SendParts
                     [ FunctionResponsePart
                         {| fr_name := "startDeployment";
                            fr_result :=
                              Primitive
                                (JString
                                   "Please confirm the deployment in the dialog box.")
                         |} ] ] |}).
Proof.
  intros Hk Hp Ht a.
  assert (a
          = {| page :=
                 confirmBtn_click rt
                   (finally_block
                      (appendMessage rt t model_message
                         (loadingIndicator_hide
                            (completion_world
                               (startDeployment rt p n
                                  (before_try rt (type_prompt prompt w)))))));
               listeners := listeners (main rt (Some key) [] w);
               session :=
                 Some
                   ({| apiKey := key; model := "gemini-2.5-flash";
                       tools := nunDashboardTools |},
                    {| incoming := [];
                       outgoing :=
                         [ SendText (trim rt prompt);
                           SendParts
                             [ FunctionResponsePart
                                 {| fr_name := "startDeployment";
                                    fr_result :=
                                      Primitive
                                        (JString
                                           "Please confirm the deployment in the dialog box.")
                                 |} ] ] |}) |}) as ->.
  { subst a. unfold run_events, main.
    apply String.eqb_neq in Hk. rewrite Hk.
    cbn [fold_left]. unfold dispatchEvent at 2.
    cbn [listeners existsb listener_eqb orb session page].
    rewrite (submit_deployment rt p n t (type_prompt prompt w) Hp Ht).
    reflexivity. }
  set (w1 := completion_world
               (startDeployment rt p n (before_try rt (type_prompt prompt w)))).
  destruct (before_try_page rt (type_prompt prompt w)) as (Hel & _).
  destruct (loadingIndicator_hide_shown w1 Hel) as (Hc & _).
  assert (actionToConfirm
            (finally_block
               (appendMessage rt t model_message (loadingIndicator_hide w1)))
          = Some {| type := "DEPLOYMENT"; packageId := p; nodeId := n |}) as Hact.
  { cbn [finally_block set_form appendMessage set_chat actionToConfirm].
    rewrite loadingIndicator_hide_action. reflexivity. }
  cbn [page session]. unfold confirmBtn_click. rewrite Hact.
  cbn [type packageId nodeId]. change (String.eqb "DEPLOYMENT" "DEPLOYMENT") with true.
  cbn [value_ToString]. cbv iota.
  split; [|split; [reflexivity|split; [reflexivity|split; [split; reflexivity|eauto]]]].
  change (chatHistory w1) with (chatHistory (before_try rt (type_prompt prompt w)))
    in Hc.
  rewrite (filter_before_try rt (type_prompt prompt w)) in Hc.
  cbn [hideModal set_actionToConfirm set_modal appendMessage set_chat finally_block
       set_form chatHistory].
  rewrite Hc, <- !app_assoc. reflexivity.
Qed.

Lemma deployment_flow_witness :
  "key" <> ""
  /\ trim example_runtime " deploy 2.0 " <> ""
  /\ chatHistory
       (page
          (run_events example_runtime [on_promptForm_submit; on_confirmBtn_click]
             (main example_runtime (Some "key")
                (deployment_service (JString "2.0") (JString "node-2") "Staged.")
                (type_prompt " deploy 2.0 " initial_world))))
     = [ MessageDiv user_message (preformatted "deploy 2.0");
         MessageDiv model_message (preformatted "Staged.");
         success_message (JString "2.0") (JString "node-2") ].
Proof.
  assert ("key" <> "") as Hk by discriminate.
  assert (trim example_runtime " deploy 2.0 " <> "") as Hp by discriminate.
  assert ("Staged." <> "") as Ht by discriminate.
  split; [exact Hk|]. split; [exact Hp|].
  exact (proj1 (deployment_flow example_runtime "key" " deploy 2.0 " "Staged."
                  (JString "2.0") (JString "node-2") initial_world Hk Hp Ht)).
Defined.

(** ** A pending action over a run *)


